(** * Pointer Focus plugin for Gedit: a verification development

    A shallow embedding of [pointerfocus/pointer_focus.py]: the widget-tree
    walks [_get_notebooks] and [_get_focusables], the two handler tables of
    [PointerFocusWindowHelper], the instance table of [PointerFocusPlugin],
    and the part of the GTK signal machinery the plugin talks to
    ([connect], [disconnect], [add_events], [grab_focus], signal emission).

    Widgets are Python objects: they are compared and hashed by identity.
    A widget is therefore modelled with an explicit identity [wid], and a
    Python set of widgets (or a dictionary keyed by widgets) is a finite map
    keyed by that identity.  Calls to [LOGGER.log] have no effect on the
    program state and are left out. *)

From stdpp Require Import gmap list.

Set Default Proof Using "Type".

(** ** Python exceptions and results *)

Inductive exn := AttributeError | KeyError | TypeError.

Inductive result (A : Type) :=
  | Ok (a : A)
  | Raise (e : exn).
Arguments Ok {A} a.
Arguments Raise {A} e.

Definition is_Ok {A} (r : result A) : Prop := ∃ a, r = Ok a.

(** ** Widgets *)

(** Identity of a widget object. *)
Abbreviation wid := positive.

(** What the plugin can observe of a widget:
    - [wid_of]: the object identity;
    - [is_notebook]: the answer of [isinstance(widget, gtk.Notebook)];
    - [can_focus]: the answer of [widget.get_property('can_focus')], or
      [None] when the object has no such operation ([AttributeError]);
    - [get_children]: the answer of [widget.get_children()], or [None] when
      the object has no such method ([AttributeError]). *)
#[warnings="-register-all"]
Inductive widget := Widget {
  wid_of : wid;
  is_notebook : bool;
  can_focus : option bool;
  get_children : option (list widget)
}.
Arguments Widget wid_of%_positive is_notebook can_focus get_children.

(** A Python set of widgets, keyed by object identity. *)
Abbreviation wset := (gmap wid widget).

(** Induction over widget trees (the children sit in a nested list). *)
Section widget_induction.
Variable P : widget → Prop.
Hypothesis leaf : ∀ i nb cf, P (Widget i nb cf None).
Hypothesis node : ∀ i nb cf cs, Forall P cs → P (Widget i nb cf (Some cs)).

Fixpoint widget_tree_ind (w : widget) : P w :=
  match w with
  | Widget i nb cf None => leaf i nb cf
  | Widget i nb cf (Some cs) =>
      node i nb cf cs
        ((fix go (l : list widget) : Forall P l :=
            match l with
            | [] => Forall_nil_2 P
            | c :: l' => Forall_cons_2 P c l' (widget_tree_ind c) (go l')
            end) cs)
  end.
End widget_induction.

(** The subtree rooted at a widget: the widget itself and, below every
    widget of it that exposes [get_children], all of its children. *)
Inductive in_subtree : widget → widget → Prop :=
  | in_subtree_root w : in_subtree w w
  | in_subtree_child v c cs w :
      get_children w = Some cs → c ∈ cs → in_subtree v c → in_subtree v w.

(** ** The host toolkit: signals, connections, focus *)

Inductive signal := page_added | enter_notify_event.

(** Reference to a [PointerFocusWindowHelper] object. *)
Abbreviation obj := nat.

(** The bound methods that the plugin hands to [connect]. *)
Inductive callback :=
  | bound_on_page_added (self : obj)
  | bound_on_enter_notify_event (self : obj).

Definition owner (cb : callback) : obj :=
  match cb with
  | bound_on_page_added self | bound_on_enter_notify_event self => self
  end.

(** A handler id as returned by [connect]. *)
Abbreviation handler_id := nat.

Record connection := Connection {
  conn_widget : wid;
  conn_signal : signal;
  conn_callback : callback
}.

#[global] Instance signal_eq_dec : EqDecision signal.
Proof. solve_decision. Defined.
#[global] Instance callback_eq_dec : EqDecision callback.
Proof. solve_decision. Defined.
#[global] Instance connection_eq_dec : EqDecision connection.
Proof. solve_decision. Defined.

(** State of the toolkit.
    - [handlers]: slot [h] holds the connection made under handler id [h],
      or [None] once it has been disconnected; ids are never handed out
      twice;
    - [event_mask]: the widgets on which [ENTER_NOTIFY_MASK] was added;
    - [focus_log]: the widgets on which [grab_focus] was called, oldest
      first. *)
Record gtk := Gtk {
  handlers : list (option connection);
  event_mask : gset wid;
  focus_log : list wid
}.

(** The attributes of a [PointerFocusWindowHelper] object. *)
Record helper := Helper {
  _window : widget;
  _handlers_per_notebook : gmap wid handler_id;
  _handlers_per_focusable : gmap wid handler_id
}.

(** ** Computations that read and write a state and may raise

    The state is kept when an exception is raised: what a method did before
    raising stays done. *)
Definition M (S A : Type) : Type := S → result A * S.

#[global] Instance M_ret {S} : MRet (M S) := λ A a s, (Ok a, s).
#[global] Instance M_bind {S} : MBind (M S) := λ A B f m s,
  match m s with
  | (Ok a, s') => f a s'
  | (Raise e, s') => (Raise e, s')
  end.

Definition raise {S A} (e : exn) : M S A := λ s, (Raise e, s).
Definition lift {S A} (r : result A) : M S A := λ s, (r, s).
Definition get {S} : M S S := λ s, (Ok s, s).
Definition modify {S} (f : S → S) : M S unit := λ s, (Ok tt, f s).

(** [for x in l: body(x)] *)
Fixpoint for_each {S A} (l : list A) (body : A → M S unit) : M S unit :=
  match l with
  | [] => mret tt
  | a :: l' => body a ;; for_each l' body
  end.

(** A method of a helper runs on the attributes of [self] and on the
    toolkit. *)
Definition frame : Type := helper * gtk.

Definition on_gtk (f : gtk → gtk) : M frame unit := modify (λ '(hp, g), (hp, f g)).
Definition on_self (f : helper → helper) : M frame unit := modify (λ '(hp, g), (f hp, g)).

(** [widget.connect(signal, callback)]: a fresh handler id. *)
Definition connect (w : wid) (sig : signal) (cb : callback) : M frame handler_id :=
  λ '(hp, g),
    (Ok (length (handlers g)),
     (hp, Gtk (handlers g ++ [Some (Connection w sig cb)]) (event_mask g) (focus_log g))).

(** [widget.disconnect(handler_id)]: removes the handler when it is a
    connected handler of this widget; otherwise the toolkit only warns. *)
Definition disconnect (w : wid) (h : handler_id) : M frame unit :=
  on_gtk (λ g,
    match handlers g !! h with
    | Some (Some c) =>
        if decide (conn_widget c = w)
        then Gtk (<[h := None]> (handlers g)) (event_mask g) (focus_log g)
        else g
    | _ => g
    end).

(** [widget.add_events(gtk.gdk.ENTER_NOTIFY_MASK)] *)
Definition add_events (w : wid) : M frame unit :=
  on_gtk (λ g, Gtk (handlers g) ({[w]} ∪ event_mask g) (focus_log g)).

(** [widget.grab_focus()] *)
Definition grab_focus (w : wid) : M frame unit :=
  on_gtk (λ g, Gtk (handlers g) (event_mask g) (focus_log g ++ [w])).

(** ** PointerFocusWindowHelper *)

Module PointerFocusWindowHelper.

(** *** Collect widgets *)

(** [_get_notebooks]: [get_children] is tried first; on [AttributeError]
    the widget contributes nothing, otherwise the widget is added when it is
    a [gtk.Notebook] and the children are walked.  The parameter [original]
    of the two walks only decides whether the call is logged. *)
Fixpoint _get_notebooks (widget : widget) : wset :=
  match widget with
  | Widget i nb _ ch =>
      match ch with
      | None => ∅
      | Some children =>
          let notebooks : wset :=
            if nb then <[i := widget]> ∅ else ∅ in
          (fix loop (cs : list _) (notebooks : wset) : wset :=
             match cs with
             | [] => notebooks
             | child :: cs' => loop cs' (notebooks ∪ _get_notebooks child)
             end) children notebooks
      end
  end.

(** [_get_focusables]: [get_property] is called outside the [try], so its
    failure is raised; the recursive calls are in the [else] branch of the
    [try], so a failure in a child is raised as well. *)
Fixpoint _get_focusables (widget : widget) : result wset :=
  match widget with
  | Widget i _ cf ch =>
      match cf with
      | None => Raise AttributeError
      | Some can_focus =>
          let focusables : wset :=
            if can_focus then <[i := widget]> ∅ else ∅ in
          match ch with
          | None => Ok focusables
          | Some children =>
              (fix loop (cs : list _) (focusables : wset) : result wset :=
                 match cs with
                 | [] => Ok focusables
                 | child :: cs' =>
                     match _get_focusables child with
                     | Raise e => Raise e
                     | Ok s => loop cs' (focusables ∪ s)
                     end
                 end) children focusables
          end
      end
  end.

(** [acc = set(); for c in cs: acc |= f(c)]: stops at the first [c] on which
    [f] raises. *)
Fixpoint union_results (f : widget → result wset) (cs : list widget)
    (acc : wset) : result wset :=
  match cs with
  | [] => Ok acc
  | c :: cs' =>
      match f c with
      | Raise e => Raise e
      | Ok s => union_results f cs' (acc ∪ s)
      end
  end.

(** *** Connect, disconnect, respond *)

(** [PointerFocusWindowHelper(window)] *)
Definition __init__ (window : widget) : helper := Helper window ∅ ∅.

Definition _connect_notebooks (self : obj) (notebooks : wset) : M frame unit :=
  for_each (map_to_list notebooks) (λ '(notebook, _),
    h ← connect notebook page_added (bound_on_page_added self);
    on_self (λ hp, Helper (_window hp)
                          (<[notebook := h]> (_handlers_per_notebook hp))
                          (_handlers_per_focusable hp))).

Definition _disconnect_notebooks : M frame unit :=
  '(hp, _) ← get;
  for_each (map_to_list (_handlers_per_notebook hp)) (λ '(notebook, h),
    disconnect notebook h) ;;
  on_self (λ hp, Helper (_window hp) ∅ (_handlers_per_focusable hp)).

Definition _connect_focusables (self : obj) (focusables : wset) : M frame unit :=
  for_each (map_to_list focusables) (λ '(focusable, _),
    add_events focusable ;;
    h ← connect focusable enter_notify_event (bound_on_enter_notify_event self);
    on_self (λ hp, Helper (_window hp)
                          (_handlers_per_notebook hp)
                          (<[focusable := h]> (_handlers_per_focusable hp)))).

Definition _disconnect_focusables : M frame unit :=
  '(hp, _) ← get;
  for_each (map_to_list (_handlers_per_focusable hp)) (λ '(focusable, h),
    disconnect focusable h) ;;
  on_self (λ hp, Helper (_window hp) (_handlers_per_notebook hp) ∅).

Definition _on_page_added (self : obj) (notebook child : widget) (page_num : Z)
    : M frame unit :=
  focusables ← lift (_get_focusables child);
  _connect_focusables self focusables.

Definition _on_enter_notify_event (self : obj) (widget : widget) (event : Z * Z)
    : M frame unit :=
  grab_focus (wid_of widget).

Definition activate (self : obj) : M frame unit :=
  '(hp, _) ← get;
  let notebooks := _get_notebooks (_window hp) in
  _connect_notebooks self notebooks ;;
  focusables ← lift (union_results _get_focusables (map_to_list notebooks).*2 ∅);
  _connect_focusables self focusables.

Definition deactivate (self : obj) : M frame unit :=
  _disconnect_notebooks ;;
  _disconnect_focusables.

End PointerFocusWindowHelper.

Import PointerFocusWindowHelper.

(** ** The running editor: helper objects, the plugin, signal emission *)

(** - [toolkit]: the state of the toolkit;
    - [heap]: the [PointerFocusWindowHelper] objects created so far, a
      reference to one being its position;
    - [_instances]: the attribute of the one [PointerFocusPlugin] object, a
      dictionary from windows to helper objects. *)
Record world := World {
  toolkit : gtk;
  heap : list helper;
  _instances : gmap wid obj
}.

(** The editor before the plugin is loaded; [PointerFocusPlugin.__init__]
    sets [_instances] to the empty dictionary. *)
Definition world0 : world := World (Gtk [] ∅ []) [] ∅.

(** Calling a method on the helper object [self].  Every reference the
    model hands out is allocated; one that is not is answered by
    [TypeError] and no change. *)
Definition call {A} (self : obj) (m : M frame A) : M world A := λ σ,
  match heap σ !! self with
  | Some hp =>
      let '(r, (hp', g')) := m (hp, toolkit σ) in
      (r, World g' (<[self := hp']> (heap σ)) (_instances σ))
  | None => (Raise TypeError, σ)
  end.

(** What the toolkit tells its listeners. *)
Inductive notification :=
  | PageAdded (notebook child : widget) (page_num : Z)
  | EnterNotify (widget : widget) (event : Z * Z).

Definition emitter (n : notification) : wid :=
  match n with
  | PageAdded notebook _ _ => wid_of notebook
  | EnterNotify widget _ => wid_of widget
  end.

Definition signal_of (n : notification) : signal :=
  match n with
  | PageAdded _ _ _ => page_added
  | EnterNotify _ _ => enter_notify_event
  end.

(** Running one connected callback on a notification; a callback connected
    to a signal with other arguments than it takes fails with [TypeError]. *)
Definition invoke (cb : callback) (n : notification) : M world unit :=
  match cb, n with
  | bound_on_page_added self, PageAdded notebook child page_num =>
      call self (_on_page_added self notebook child page_num)
  | bound_on_enter_notify_event self, EnterNotify widget event =>
      call self (_on_enter_notify_event self widget event)
  | _, _ => raise TypeError
  end.

(** The callbacks connected to signal [sig] of widget [w], in the order of
    their connection. *)
Definition connected (g : gtk) (w : wid) (sig : signal) : list callback :=
  omap (λ slot : option connection,
          c ← slot;
          if decide (conn_widget c = w ∧ conn_signal c = sig)
          then Some (conn_callback c) else None)
       (handlers g).

(** Delivery of a notification: every callback connected when the emission
    starts is run in turn.  An exception raised by a callback is reported by
    the language binding and does not stop the emission; what the callback
    did before raising stays done. *)
Definition emit (n : notification) : M world unit := λ σ,
  (Ok tt,
   foldl (λ σ cb, (invoke cb n σ).2) σ
         (connected (toolkit σ) (emitter n) (signal_of n))).

(** ** PointerFocusPlugin *)

Module PointerFocusPlugin.

(** [self._instances[window]] *)
Definition getitem (window : wid) : M world obj := λ σ,
  match _instances σ !! window with
  | Some self => (Ok self, σ)
  | None => (Raise KeyError, σ)
  end.

(** [self._instances.pop(window)] *)
Definition pop (window : wid) : M world obj :=
  self ← getitem window;
  modify (λ σ, World (toolkit σ) (heap σ) (delete window (_instances σ))) ;;
  mret self.

(** [self._instances[window] = PointerFocusWindowHelper(window)] *)
Definition setitem_new_helper (window : widget) : M world unit :=
  modify (λ σ, World (toolkit σ)
                     (heap σ ++ [PointerFocusWindowHelper.__init__ window])
                     (<[wid_of window := length (heap σ)]> (_instances σ))).

Definition activate (window : widget) : M world unit :=
  setitem_new_helper window ;;
  self ← getitem (wid_of window);
  call self (PointerFocusWindowHelper.activate self).

Definition deactivate (window : widget) : M world unit :=
  self ← getitem (wid_of window);
  call self (PointerFocusWindowHelper.deactivate self) ;;
  pop (wid_of window) ;;
  mret tt.

End PointerFocusPlugin.

(** ** The life of one helper *)

(** What can happen to the helper [self]: its two public methods are called,
    or the toolkit delivers a notification to whoever is connected. *)
Inductive action :=
  | Activate
  | Deactivate
  | Notify (n : notification).

Definition run (self : obj) (a : action) : M world unit :=
  match a with
  | Activate => call self (activate self)
  | Deactivate => call self (deactivate self)
  | Notify n => emit n
  end.

(** The state after a sequence of actions. *)
Definition exec (self : obj) (l : list action) (σ : world) : world :=
  foldl (λ σ a, (run self a σ).2) σ l.

(** The subscriptions a helper holds: the connected handlers whose callback
    is a bound method of that helper. *)
Definition subscription (σ : world) (self : obj) (w : wid) (sig : signal)
    (h : handler_id) : Prop :=
  ∃ cb, handlers (toolkit σ) !! h = Some (Some (Connection w sig cb)) ∧
        owner cb = self.

(** ** Widgets as objects that refer to each other

    A [widget] value is a finite tree, on which the two walks are defined by
    structural recursion.  Python sees objects that refer to their children;
    nothing in the language keeps such references from forming a cycle.  To
    speak about termination the walks are written a second time over a graph
    of objects, with a bound [fuel] on the depth of the recursion: [None]
    says that the bound was reached. *)

Module Graph.

Record node := Node {
  node_is_notebook : bool;
  node_can_focus : option bool;
  node_children : option (list wid)
}.

Section walks.
(** The object behind each reference. *)
Variable objects : wid → node.

Fixpoint union_calls (f : wid → option (gset wid)) (cs : list wid)
    (acc : gset wid) : option (gset wid) :=
  match cs with
  | [] => Some acc
  | c :: cs' =>
      match f c with
      | None => None
      | Some s => union_calls f cs' (acc ∪ s)
      end
  end.

Fixpoint _get_notebooks (fuel : nat) (widget : wid) : option (gset wid) :=
  match fuel with
  | 0 => None
  | S fuel =>
      match node_children (objects widget) with
      | None => Some ∅
      | Some children =>
          union_calls (_get_notebooks fuel) children
            (if node_is_notebook (objects widget) then {[widget]} else ∅)
      end
  end.

Fixpoint union_result_calls (f : wid → option (result (gset wid)))
    (cs : list wid) (acc : gset wid) : option (result (gset wid)) :=
  match cs with
  | [] => Some (Ok acc)
  | c :: cs' =>
      match f c with
      | None => None
      | Some (Raise e) => Some (Raise e)
      | Some (Ok s) => union_result_calls f cs' (acc ∪ s)
      end
  end.

Fixpoint _get_focusables (fuel : nat) (widget : wid)
    : option (result (gset wid)) :=
  match fuel with
  | 0 => None
  | S fuel =>
      match node_can_focus (objects widget) with
      | None => Some (Raise AttributeError)
      | Some can_focus =>
          let focusables : gset wid :=
            if can_focus then {[widget]} else ∅ in
          match node_children (objects widget) with
          | None => Some (Ok focusables)
          | Some children =>
              union_result_calls (_get_focusables fuel) children focusables
          end
      end
  end.

(** The finite tree below a reference, when there is one within [fuel]
    levels. *)
Fixpoint unfold (fuel : nat) (ref : wid) : option widget :=
  match fuel with
  | 0 => None
  | S fuel =>
      let o := objects ref in
      match node_children o with
      | None =>
          Some (Widget ref (node_is_notebook o) (node_can_focus o) None)
      | Some children =>
          cs ← mapM (unfold fuel) children;
          Some (Widget ref (node_is_notebook o) (node_can_focus o) (Some cs))
      end
  end.
End walks.

End Graph.

(** ** What the loops of the helper leave behind *)

(** The handler ids recorded by a loop that connects the widgets [ws] one
    after the other, the first one under id [next]. *)
Fixpoint record_handlers (next : handler_id) (ws : list wid)
    (d : gmap wid handler_id) : gmap wid handler_id :=
  match ws with
  | [] => d
  | w :: ws' => record_handlers (S next) ws' (<[w := next]> d)
  end.

(** The connections such a loop makes. *)
Definition connections_to (sig : signal) (cb : callback) (ws : list wid)
    : list (option connection) :=
  (λ w, Some (Connection w sig cb)) <$> ws.

(** The event mask after [add_events] on each of [ws]. *)
Definition masked (ws : list wid) (mask : gset wid) : gset wid :=
  foldl (λ mask w, {[w]} ∪ mask) mask ws.

(** The handler table after one [disconnect]. *)
Definition without (w : wid) (h : handler_id) (hs : list (option connection))
    : list (option connection) :=
  match hs !! h with
  | Some (Some c) => if decide (conn_widget c = w) then <[h := None]> hs else hs
  | _ => hs
  end.

(** The handler table after disconnecting every recorded handler. *)
Definition without_all (d : list (wid * handler_id))
    (hs : list (option connection)) : list (option connection) :=
  foldl (λ hs '(w, h), without w h hs) hs d.

(** The state in the middle of [activate], after [_connect_notebooks]. *)
Definition notebooks_connected (self : obj) (hp : helper) (g : gtk) : frame :=
  (Helper (_window hp)
          (record_handlers (length (handlers g))
             (map_to_list (_get_notebooks (_window hp))).*1
             (_handlers_per_notebook hp))
          (_handlers_per_focusable hp),
   Gtk (handlers g ++
          connections_to page_added (bound_on_page_added self)
            (map_to_list (_get_notebooks (_window hp))).*1)
       (event_mask g) (focus_log g)).

(** The editor after helper [self] has connected the widgets [ws] to its
    [_on_enter_notify_event]. *)
Definition focusables_connected (σ : world) (self : obj) (hp : helper)
    (ws : list wid) : world :=
  World
    (Gtk (handlers (toolkit σ) ++
            connections_to enter_notify_event (bound_on_enter_notify_event self) ws)
         (masked ws (event_mask (toolkit σ)))
         (focus_log (toolkit σ)))
    (<[self := Helper (_window hp) (_handlers_per_notebook hp)
                 (record_handlers (length (handlers (toolkit σ))) ws
                                  (_handlers_per_focusable hp))]> (heap σ))
    (_instances σ).

(** The editor after [grab_focus] on widget [w]. *)
Definition focus_grabbed (σ : world) (w : wid) : world :=
  World
    (Gtk (handlers (toolkit σ)) (event_mask (toolkit σ))
         (focus_log (toolkit σ) ++ [w]))
    (heap σ) (_instances σ).

(** The keys of a set of widgets, in the order a loop visits them. *)
Definition keys (s : wset) : list wid := (map_to_list s).*1.

(** Helper [self] holds, for each widget of [ws], a connected handler of its
    own on 'enter-notify-event', recorded under that widget. *)
Definition subscribed_to (self : obj) (ws : list wid) (σ : world) : Prop :=
  ∃ hp, heap σ !! self = Some hp ∧
    ∀ w, w ∈ ws →
      ∃ h, _handlers_per_focusable hp !! w = Some h ∧
           handlers (toolkit σ) !! h =
             Some (Some (Connection w enter_notify_event
                                    (bound_on_enter_notify_event self))) ∧
           w ∈ event_mask (toolkit σ).

(** The keys of both handler tables are kept from [hp] to [hp']. *)
Definition keeps_entries (hp hp' : helper) : Prop :=
  dom (_handlers_per_notebook hp) ⊆ dom (_handlers_per_notebook hp') ∧
  dom (_handlers_per_focusable hp) ⊆ dom (_handlers_per_focusable hp').


(** ** Bookkeeping of subscriptions *)

(** Helper [self] holds at most one subscription per widget and signal. *)
Definition at_most_one_subscription (σ : world) (self : obj) : Prop :=
  ∀ w sig h1 h2,
    subscription σ self w sig h1 → subscription σ self w sig h2 → h1 = h2.

(** Handle [h] is recorded for widget [w] in one of the tables of [self]. *)
Definition recorded (σ : world) (self : obj) (w : wid) (h : handler_id) : Prop :=
  ∃ hp, heap σ !! self = Some hp ∧
        (_handlers_per_notebook hp !! w = Some h ∨
         _handlers_per_focusable hp !! w = Some h).

(** Every subscription of [self] is recorded in its tables. *)
Definition subscriptions_recorded (σ : world) (self : obj) : Prop :=
  ∀ w sig h, subscription σ self w sig h → recorded σ self w h.

(** Helper [self] holds no subscription. *)
Definition no_subscription (σ : world) (self : obj) : Prop :=
  ∀ w sig h, ¬ subscription σ self w sig h.

(** The books of helper [self] are in order: each connected handler that
    runs one of its bound methods is the handler recorded for its widget, in
    the table that belongs to its signal. *)
Definition bookkept (self : obj) (σ : world) : Prop :=
  ∃ hp, heap σ !! self = Some hp ∧
    ∀ h c, handlers (toolkit σ) !! h = Some (Some c) →
      owner (conn_callback c) = self →
      (c = Connection (conn_widget c) page_added (bound_on_page_added self) ∧
       _handlers_per_notebook hp !! conn_widget c = Some h) ∨
      (c = Connection (conn_widget c) enter_notify_event
                      (bound_on_enter_notify_event self) ∧
       _handlers_per_focusable hp !! conn_widget c = Some h).

(** The set a walk returned, or the empty set when it raised. *)
Definition value_of (r : result wset) : wset :=
  match r with Ok s => s | Raise _ => ∅ end.

(** The identities in the result of a walk. *)
Definition dom_of (r : result wset) : result (gset wid) :=
  match r with
  | Ok s => Ok (dom s)
  | Raise e => Raise e
  end.

(** ** A small editor window, used in examples

    A window that holds one notebook with one page, a focusable widget
    without children (a text entry, say). *)
Definition page3 : widget := Widget 3 false (Some true) None.
Definition notebook2 : widget := Widget 2 true (Some false) (Some [page3]).
Definition window1 : widget := Widget 1 false (Some false) (Some [notebook2]).

(** The editor with one helper object, just created for [window1]. *)
Definition editor1 : world := World (Gtk [] ∅ []) [__init__ window1] ∅.

(** The same window as a graph of objects, and the depth of each object. *)
Definition objects1 (ref : wid) : Graph.node :=
  if decide (ref = 1%positive) then Graph.Node false (Some false) (Some [2%positive])
  else if decide (ref = 2%positive) then Graph.Node true (Some false) (Some [3%positive])
  else Graph.Node false (Some true) None.

Definition depth1 (ref : wid) : nat :=
  if decide (ref = 1%positive) then 2
  else if decide (ref = 2%positive) then 1
  else 0.

(** An object that is its own child. *)
Definition knot (ref : wid) : Graph.node :=
  Graph.Node false (Some false) (Some [ref]).

(** The page of the notebook is taken out and put back (a tab dragged to
    another window and back): the toolkit announces it as added. *)
Definition page_put_back : list action :=
  [Activate; Notify (PageAdded notebook2 page3 0)].


(** A page that is added later: a box around a focusable widget. *)
Definition page5 : widget :=
  Widget 5 false (Some false) (Some [Widget 6 false (Some true) None]).

(** A notebook whose second page is an object without [get_property]. *)
Definition notebook_with_bare_page : widget :=
  Widget 2 true (Some false) (Some [page3; Widget 4 false None None]).

(** ** Further descriptions of states and traces *)

(** The editor in the middle of [activate] of helper [self], after
    [_connect_notebooks]. *)
Definition notebooks_connected_world (σ : world) (self : obj) (hp : helper)
    : world :=
  World (notebooks_connected self hp (toolkit σ)).2
        (<[self := (notebooks_connected self hp (toolkit σ)).1]> (heap σ))
        (_instances σ).

(** Every connected callback is a bound method of a helper object that
    exists. *)
Definition callbacks_allocated (σ : world) : Prop :=
  ∀ h c, handlers (toolkit σ) !! h = Some (Some c) →
         owner (conn_callback c) < length (heap σ).

(** The notification does not announce a focusable widget that helper
    [self] has in its table already. *)
Definition announces_new (self : obj) (n : notification) (σ : world) : Prop :=
  match n with
  | PageAdded _ child _ =>
      ∀ hp s w, heap σ !! self = Some hp → _get_focusables child = Ok s →
                w ∈ dom s → _handlers_per_focusable hp !! w = None
  | EnterNotify _ _ => True
  end.

(** The same for each notification of a sequence, at the time of its
    delivery. *)
Fixpoint announce_new (self : obj) (ns : list notification) (σ : world) : Prop :=
  match ns with
  | [] => True
  | n :: ns' => announces_new self n σ ∧ announce_new self ns' (emit n σ).2
  end.

(** What [activate] walks: the widgets below the notebooks it found. *)
Definition under_notebook (window v : widget) : Prop :=
  ∃ i notebook, _get_notebooks window !! i = Some notebook ∧ in_subtree v notebook.

(** A window whose notebook holds a page without [get_property], and the
    editor with a helper just created for it. *)
Definition window_bare : widget :=
  Widget 1 false (Some false) (Some [notebook_with_bare_page]).

Definition editor_bare : world := World (Gtk [] ∅ []) [__init__ window_bare] ∅.

(** The editor after [self._instances[window] = PointerFocusWindowHelper(window)]. *)
Definition helper_created (σ : world) (window : widget) : world :=
  World (toolkit σ)
        (heap σ ++ [__init__ window])
        (<[wid_of window := length (heap σ)]> (_instances σ)).

(** Callback [cb] occurs at most once in a list of callbacks. *)
Fixpoint at_most_once (cb : callback) (l : list callback) : Prop :=
  match l with
  | [] => True
  | x :: l' => if decide (x = cb) then cb ∉ l' else at_most_once cb l'
  end.

(** A window whose first child has no [get_children] (although it is a
    notebook that can take the focus) and whose second child is the
    notebook with its page. *)
Definition window_mixed : widget :=
  Widget 1 false (Some false)
    (Some [Widget 4 true (Some true) None; notebook2]).


(** The loops of the two walks, as folds over the children. *)
Lemma _get_notebooks_children i nb cf cs :
  _get_notebooks (Widget i nb cf (Some cs)) =
  foldl (λ acc c, acc ∪ _get_notebooks c)
        (if nb then <[i := Widget i nb cf (Some cs)]> ∅ else ∅) cs.
Proof.
  cbn [_get_notebooks].
  generalize (if nb then <[i := Widget i nb cf (Some cs)]> (∅ : wset) else ∅).
  induction cs as [|c l IH]; intros acc; [done|]. cbn [foldl]. apply IH.
Qed.

Lemma _get_focusables_children i nb b cs :
  _get_focusables (Widget i nb (Some b) (Some cs)) =
  union_results _get_focusables cs
    (if b then <[i := Widget i nb (Some b) (Some cs)]> ∅ else ∅).
Proof.
  cbn [_get_focusables].
  generalize (if b then <[i := Widget i nb (Some b) (Some cs)]> (∅ : wset) else ∅).
  induction cs as [|c l IH]; intros acc; [done|]. cbn [union_results].
  destruct (_get_focusables c); [apply IH | done].
Qed.

(** *** Facts about the walks *)

Lemma foldl_union_lookup (f : widget → wset) cs (acc : wset) i v :
  foldl (λ acc c, acc ∪ f c) acc cs !! i = Some v →
  acc !! i = Some v ∨ ∃ c, c ∈ cs ∧ f c !! i = Some v.
Proof.
  revert acc. induction cs as [|c cs IH]; intros acc; cbn [foldl]; [auto|].
  intros [H|(c' & Hin & H)]%IH.
  - apply lookup_union_Some_raw in H as [H|[_ H]]; [auto|].
    right. exists c. split; [left|done].
  - right. exists c'. split; [by right|done].
Qed.

Lemma foldl_union_dom (f : widget → wset) cs (acc : wset) i :
  i ∈ dom (foldl (λ acc c, acc ∪ f c) acc cs) ↔
  i ∈ dom acc ∨ ∃ c, c ∈ cs ∧ i ∈ dom (f c).
Proof.
  revert acc. induction cs as [|c cs IH]; intros acc; cbn [foldl].
  - split; [auto|]. intros [?|(c & Hin & _)]; [done|]. by apply elem_of_nil in Hin.
  - rewrite IH, dom_union, elem_of_union. split.
    + intros [[?|?]|(c' & Hin & ?)]; [auto| |].
      * right. exists c. split; [left|done].
      * right. exists c'. split; [by right|done].
    + intros [?|(c' & Hin & ?)]; [auto|].
      apply elem_of_cons in Hin as [->|Hin]; [auto|]. right. eauto.
Qed.

Lemma union_results_Ok f cs acc s :
  union_results f cs acc = Ok s →
  s = foldl (λ acc c, acc ∪ value_of (f c)) acc cs ∧ Forall (λ c, is_Ok (f c)) cs.
Proof.
  revert acc. induction cs as [|c cs IH]; intros acc; cbn [union_results foldl].
  - intros [= <-]. auto.
  - destruct (f c) as [t|e] eqn:E; [|done].
    intros [-> HF]%IH. split; [done|]. constructor; [by exists t|done].
Qed.

Lemma union_results_total f cs acc :
  Forall (λ c, is_Ok (f c)) cs → is_Ok (union_results f cs acc).
Proof.
  intros HF. revert acc. induction HF as [|c cs [t E] _ IH]; intros acc;
    cbn [union_results]; [by eexists|].
  rewrite E. apply IH.
Qed.

Lemma in_subtree_trans u v w : in_subtree u v → in_subtree v w → in_subtree u w.
Proof.
  intros Huv Hvw. induction Hvw as [|v c cs w Hch Hin _ IH]; [done|].
  eapply in_subtree_child; eauto.
Qed.

Lemma in_subtree_inv v w :
  in_subtree v w →
  v = w ∨ ∃ cs c, get_children w = Some cs ∧ c ∈ cs ∧ in_subtree v c.
Proof. destruct 1; [auto|]. right. eauto. Qed.

(** Members of [_get_notebooks widget]: the notebooks of the subtree that
    expose [get_children], each under its own identity. *)
Lemma _get_notebooks_sound w i v :
  _get_notebooks w !! i = Some v →
  in_subtree v w ∧ wid_of v = i ∧ is_notebook v = true ∧ is_Some (get_children v).
Proof.
  revert i v. induction w as [j nb cf|j nb cf cs IH] using widget_tree_ind;
    intros i v; [done|].
  rewrite _get_notebooks_children.
  intros [H|(c & Hin & H)]%foldl_union_lookup.
  - destruct nb; [|done].
    apply lookup_insert_Some in H as [[<- <-]|[_ H]]; [|done].
    split; [constructor|]. cbn. eauto.
  - rewrite Forall_forall in IH. destruct (IH c Hin i v H) as (Hs & ? & ? & ?).
    split; [|done]. by eapply in_subtree_child.
Qed.

Lemma _get_notebooks_complete w v :
  in_subtree v w → is_notebook v = true → is_Some (get_children v) →
  wid_of v ∈ dom (_get_notebooks w).
Proof.
  intros Hs Hnb Hch. induction Hs as [w|v c cs w Hcs Hin Hs IH].
  - destruct w as [j nb cf [cs|]]; cbn in Hnb, Hch; [|by destruct Hch].
    rewrite _get_notebooks_children, foldl_union_dom. left. subst nb.
    rewrite dom_insert. set_solver.
  - destruct w as [j nb cf ch]; cbn in Hcs; subst ch.
    rewrite _get_notebooks_children, foldl_union_dom. right. eauto.
Qed.

(** [_get_focusables] returns normally exactly when every widget of the
    subtree answers [get_property('can_focus')]. *)
Lemma _get_focusables_Ok_iff w :
  is_Ok (_get_focusables w) ↔ ∀ v, in_subtree v w → is_Some (can_focus v).
Proof.
  induction w as [j nb cf|j nb cf cs IH] using widget_tree_ind.
  - destruct cf as [b|]; cbn.
    + split; [|by eexists]. intros _ v [->|(? & ? & [=] & _)]%in_subtree_inv. cbn; eauto.
    + split; [by intros [? [=]]|]. intros H.
      by destruct (H _ (in_subtree_root _)).
  - destruct cf as [b|].
    + rewrite _get_focusables_children. rewrite Forall_forall in IH. split.
      * intros [s (_ & HF)%union_results_Ok] v [->|(l & c & [= <-] & Hin & Hs)]%in_subtree_inv;
          [cbn; eauto|].
        rewrite Forall_forall in HF. eapply IH; eauto.
      * intros H. apply union_results_total, Forall_forall. intros c Hin.
        apply IH; [done|]. intros v Hv. apply H. by eapply in_subtree_child.
    + cbn. split; [by intros [? [=]]|]. intros H.
      by destruct (H _ (in_subtree_root _)).
Qed.

Lemma _get_focusables_sound w s i v :
  _get_focusables w = Ok s → s !! i = Some v →
  in_subtree v w ∧ wid_of v = i ∧ can_focus v = Some true.
Proof.
  revert s i v. induction w as [j nb cf|j nb cf cs IH] using widget_tree_ind;
    intros s i v.
  - destruct cf as [[]|]; cbn; intros [= <-]; [|done].
    intros [[<- <-]|[_ H]]%lookup_insert_Some; [|done]. split; [constructor|done].
  - destruct cf as [b|]; [|done]. rewrite _get_focusables_children.
    intros [-> HF]%union_results_Ok [H|(c & Hin & H)]%foldl_union_lookup.
    + destruct b; [|done].
      apply lookup_insert_Some in H as [[<- <-]|[_ H]]; [|done].
      split; [constructor|done].
    + rewrite Forall_forall in IH, HF. destruct (HF c Hin) as [t E].
      rewrite E in H. destruct (IH c Hin t i v E H) as (Hs & ? & ?).
      split; [|done]. by eapply in_subtree_child.
Qed.

Lemma _get_focusables_complete w s v :
  _get_focusables w = Ok s → in_subtree v w → can_focus v = Some true →
  wid_of v ∈ dom s.
Proof.
  intros Hw Hs Hcf. revert s Hw. induction Hs as [w|v c cs w Hcs Hin Hs IH]; intros s.
  - destruct w as [j nb cf [cs|]]; cbn in Hcf; subst cf.
    + rewrite _get_focusables_children. intros [-> _]%union_results_Ok.
      rewrite foldl_union_dom. left. rewrite dom_insert. set_solver.
    + cbn. intros [= <-]. rewrite dom_insert. set_solver.
  - destruct w as [j nb [b|] ch]; [|done]. cbn in Hcs; subst ch.
    rewrite _get_focusables_children. intros [-> HF]%union_results_Ok.
    rewrite foldl_union_dom. right. exists c. split; [done|].
    rewrite Forall_forall in HF. destruct (HF c Hin) as [t E]. rewrite E.
    by apply IH.
Qed.


(** ** Facts about the loops of the helper *)

Lemma record_handlers_lookup_notin next ws d w :
  w ∉ ws → record_handlers next ws d !! w = d !! w.
Proof.
  revert next d. induction ws as [|w0 ws IH]; intros next d Hw; [done|].
  apply not_elem_of_cons in Hw as [Hne Hw]. cbn [record_handlers].
  rewrite IH by done. by apply lookup_insert_ne.
Qed.

Lemma record_handlers_lookup_in next ws d w :
  w ∈ ws →
  ∃ k, ws !! k = Some w ∧ record_handlers next ws d !! w = Some (next + k).
Proof.
  revert next d. induction ws as [|w0 ws IH]; intros next d Hin;
    [by apply elem_of_nil in Hin|].
  cbn [record_handlers]. destruct (decide (w ∈ ws)) as [Hws|Hws].
  - destruct (IH (S next) (<[w0:=next]> d) Hws) as (k & Hk & Hl).
    exists (S k). split; [done|]. rewrite Hl. f_equal. lia.
  - apply elem_of_cons in Hin as [->|?]; [|done]. exists 0. split; [done|].
    rewrite record_handlers_lookup_notin by done.
    rewrite lookup_insert_eq. f_equal. lia.
Qed.

Lemma record_handlers_dom next ws d w :
  w ∈ dom (record_handlers next ws d) ↔ w ∈ ws ∨ w ∈ dom d.
Proof.
  revert next d. induction ws as [|w0 ws IH]; intros next d; cbn [record_handlers].
  - rewrite elem_of_nil. tauto.
  - rewrite IH, dom_insert, elem_of_union, elem_of_singleton, elem_of_cons. tauto.
Qed.

Lemma masked_elem ws mask w : w ∈ masked ws mask ↔ w ∈ ws ∨ w ∈ mask.
Proof.
  unfold masked. revert mask. induction ws as [|w0 ws IH]; intros mask; cbn [foldl].
  - rewrite elem_of_nil. tauto.
  - rewrite IH, elem_of_union, elem_of_singleton, elem_of_cons. tauto.
Qed.

Lemma without_length w h hs : length (without w h hs) = length hs.
Proof.
  unfold without. destruct (hs !! h) as [[c|]|]; [|done..].
  case_decide; [apply length_insert|done].
Qed.

(** [disconnect] empties at most the slot it is given. *)
Lemma without_lookup w h hs k :
  without w h hs !! k = hs !! k ∨ (k = h ∧ without w h hs !! k = Some None).
Proof.
  unfold without. destruct (hs !! h) as [[c|]|] eqn:E; [|auto..].
  case_decide; [|auto]. destruct (decide (k = h)) as [->|Hne].
  - right. split; [done|]. apply list_lookup_insert_eq. by eapply lookup_lt_Some.
  - left. by apply list_lookup_insert_ne.
Qed.

(** After [disconnect], the slot is not a connected handler of the widget. *)
Lemma without_gone w h hs c :
  without w h hs !! h = Some (Some c) → conn_widget c ≠ w.
Proof.
  unfold without. destruct (hs !! h) as [[c'|]|] eqn:E.
  - case_decide as Hw.
    + rewrite list_lookup_insert_eq by (by eapply lookup_lt_Some). done.
    + rewrite E. by intros [= <-].
  - by rewrite E.
  - by rewrite E.
Qed.

Lemma without_all_lookup d hs k :
  without_all d hs !! k = hs !! k ∨ without_all d hs !! k = Some None.
Proof.
  unfold without_all. revert hs. induction d as [|[w h] d IH]; intros hs; cbn [foldl]; [auto|].
  destruct (IH (without w h hs)) as [-> | ->]; [|auto].
  destruct (without_lookup w h hs k) as [Hk | [_ Hk]]; rewrite Hk; auto.
Qed.

Lemma without_all_gone d hs w h c :
  (w, h) ∈ d → without_all d hs !! h = Some (Some c) → conn_widget c ≠ w.
Proof.
  unfold without_all. revert hs. induction d as [|[w0 h0] d IH]; intros hs Hin;
    [by apply elem_of_nil in Hin|].
  cbn [foldl]. apply elem_of_cons in Hin as [Heq|Hin]; [|by apply IH].
  injection Heq as <- <-. fold (without_all d (without w h hs)).
  destruct (without_all_lookup d (without w h hs) h) as [-> | ->]; [|done].
  apply without_gone.
Qed.

Lemma without_all_length d hs : length (without_all d hs) = length hs.
Proof.
  unfold without_all. revert hs. induction d as [|[w h] d IH]; intros hs; cbn [foldl]; [done|].
  by rewrite IH, without_length.
Qed.

Lemma for_each_cons_Ok {S A} (a : A) (l : list A) (body : A → M S unit) s s' :
  body a s = (Ok tt, s') → for_each (a :: l) body s = for_each l body s'.
Proof. intros H. cbn [for_each]. unfold mbind, M_bind. by rewrite H. Qed.

(** The two connecting loops, in closed form. *)
Lemma _connect_notebooks_loop self (l : list (wid * widget)) hp g :
  for_each l (λ '(notebook, _),
    h ← connect notebook page_added (bound_on_page_added self);
    on_self (λ hp, Helper (_window hp)
                          (<[notebook := h]> (_handlers_per_notebook hp))
                          (_handlers_per_focusable hp))) (hp, g) =
  (Ok tt,
   (Helper (_window hp)
           (record_handlers (length (handlers g)) l.*1 (_handlers_per_notebook hp))
           (_handlers_per_focusable hp),
    Gtk (handlers g ++ connections_to page_added (bound_on_page_added self) l.*1)
        (event_mask g) (focus_log g))).
Proof.
  revert hp g. induction l as [|[w x] l IH]; intros [win nbs fcs] [hs mask log].
  - cbn. by rewrite app_nil_r.
  - rewrite for_each_cons_Ok with
      (s' := (Helper win (<[w := length hs]> nbs) fcs,
              Gtk (hs ++ [Some (Connection w page_added (bound_on_page_added self))])
                  mask log)) by done.
    rewrite IH. cbn. rewrite length_app, Nat.add_1_r, <- app_assoc. done.
Qed.

Lemma _connect_focusables_loop self (l : list (wid * widget)) hp g :
  for_each l (λ '(focusable, _),
    add_events focusable ;;
    h ← connect focusable enter_notify_event (bound_on_enter_notify_event self);
    on_self (λ hp, Helper (_window hp)
                          (_handlers_per_notebook hp)
                          (<[focusable := h]> (_handlers_per_focusable hp)))) (hp, g) =
  (Ok tt,
   (Helper (_window hp) (_handlers_per_notebook hp)
           (record_handlers (length (handlers g)) l.*1 (_handlers_per_focusable hp)),
    Gtk (handlers g ++
           connections_to enter_notify_event (bound_on_enter_notify_event self) l.*1)
        (masked l.*1 (event_mask g)) (focus_log g))).
Proof.
  revert hp g. induction l as [|[w x] l IH]; intros [win nbs fcs] [hs mask log].
  - cbn. by rewrite app_nil_r.
  - rewrite for_each_cons_Ok with
      (s' := (Helper win nbs (<[w := length hs]> fcs),
              Gtk (hs ++ [Some (Connection w enter_notify_event
                                  (bound_on_enter_notify_event self))])
                  ({[w]} ∪ mask) log)) by done.
    rewrite IH. cbn. rewrite length_app, Nat.add_1_r, <- app_assoc. done.
Qed.

Lemma disconnect_loop (d : list (wid * handler_id)) hp g :
  for_each d (λ '(w, h), disconnect w h) (hp, g) =
  (Ok tt, (hp, Gtk (without_all d (handlers g)) (event_mask g) (focus_log g))).
Proof.
  revert g. induction d as [|[w h] d IH]; intros [hs mask log]; [done|].
  rewrite for_each_cons_Ok with (s' := (hp, Gtk (without w h hs) mask log)).
  - by rewrite IH.
  - unfold disconnect, on_gtk, modify, without. cbn.
    destruct (hs !! h) as [[c|]|]; [|done..]. by case_decide.
Qed.

(** ** The methods of the helper, in closed form *)

Lemma _connect_notebooks_eq self (s : wset) hp g :
  _connect_notebooks self s (hp, g) =
  (Ok tt,
   (Helper (_window hp)
           (record_handlers (length (handlers g)) (map_to_list s).*1
                            (_handlers_per_notebook hp))
           (_handlers_per_focusable hp),
    Gtk (handlers g ++
           connections_to page_added (bound_on_page_added self) (map_to_list s).*1)
        (event_mask g) (focus_log g))).
Proof. apply _connect_notebooks_loop. Qed.

Lemma _connect_focusables_eq self (s : wset) hp g :
  _connect_focusables self s (hp, g) =
  (Ok tt,
   (Helper (_window hp) (_handlers_per_notebook hp)
           (record_handlers (length (handlers g)) (map_to_list s).*1
                            (_handlers_per_focusable hp)),
    Gtk (handlers g ++
           connections_to enter_notify_event (bound_on_enter_notify_event self)
                          (map_to_list s).*1)
        (masked (map_to_list s).*1 (event_mask g)) (focus_log g))).
Proof. apply _connect_focusables_loop. Qed.

Lemma _disconnect_notebooks_eq hp g :
  _disconnect_notebooks (hp, g) =
  (Ok tt,
   (Helper (_window hp) ∅ (_handlers_per_focusable hp),
    Gtk (without_all (map_to_list (_handlers_per_notebook hp)) (handlers g))
        (event_mask g) (focus_log g))).
Proof.
  unfold _disconnect_notebooks, mbind, M_bind, get. by rewrite disconnect_loop.
Qed.

Lemma _disconnect_focusables_eq hp g :
  _disconnect_focusables (hp, g) =
  (Ok tt,
   (Helper (_window hp) (_handlers_per_notebook hp) ∅,
    Gtk (without_all (map_to_list (_handlers_per_focusable hp)) (handlers g))
        (event_mask g) (focus_log g))).
Proof.
  unfold _disconnect_focusables, mbind, M_bind, get. by rewrite disconnect_loop.
Qed.

Lemma deactivate_eq self hp g :
  deactivate self (hp, g) =
  (Ok tt,
   (Helper (_window hp) ∅ ∅,
    Gtk (without_all (map_to_list (_handlers_per_focusable hp))
           (without_all (map_to_list (_handlers_per_notebook hp)) (handlers g)))
        (event_mask g) (focus_log g))).
Proof.
  unfold deactivate, mbind, M_bind.
  by rewrite _disconnect_notebooks_eq, _disconnect_focusables_eq.
Qed.

Lemma _on_page_added_Ok self notebook child page_num s hp g :
  _get_focusables child = Ok s →
  _on_page_added self notebook child page_num (hp, g) =
  _connect_focusables self s (hp, g).
Proof. intros E. unfold _on_page_added, mbind, M_bind, lift. by rewrite E. Qed.

Lemma _on_page_added_Raise self notebook child page_num e hp g :
  _get_focusables child = Raise e →
  _on_page_added self notebook child page_num (hp, g) = (Raise e, (hp, g)).
Proof. intros E. unfold _on_page_added, mbind, M_bind, lift. by rewrite E. Qed.

Lemma activate_eq self hp g :
  activate self (hp, g) =
  match union_results _get_focusables
          (map_to_list (_get_notebooks (_window hp))).*2 ∅ with
  | Ok s => _connect_focusables self s (notebooks_connected self hp g)
  | Raise e => (Raise e, notebooks_connected self hp g)
  end.
Proof.
  unfold activate, mbind, M_bind, get, lift. rewrite _connect_notebooks_eq.
  by destruct (union_results _ _ _).
Qed.

(** ** Calls and callbacks in the running editor *)

Lemma call_eq {A} self (m : M frame A) σ hp r hp' g' :
  heap σ !! self = Some hp →
  m (hp, toolkit σ) = (r, (hp', g')) →
  call self m σ = (r, World g' (<[self := hp']> (heap σ)) (_instances σ)).
Proof. intros Hs Hm. unfold call. by rewrite Hs, Hm. Qed.

Lemma call_dangling {A} self (m : M frame A) σ :
  heap σ !! self = None → call self m σ = (Raise TypeError, σ).
Proof. intros Hs. unfold call. by rewrite Hs. Qed.

(** A callback either leaves the editor as it is (it raised before doing
    anything), or it is [_on_page_added] connecting the focusable widgets of
    the new page, or it is [_on_enter_notify_event] grabbing the focus. *)
Lemma invoke_cases cb n σ :
  (invoke cb n σ).2 = σ ∨
  (∃ self hp notebook child page_num s,
      cb = bound_on_page_added self ∧ n = PageAdded notebook child page_num ∧
      heap σ !! self = Some hp ∧ _get_focusables child = Ok s ∧
      invoke cb n σ = (Ok tt, focusables_connected σ self hp (keys s))) ∨
  (∃ self hp widget event,
      cb = bound_on_enter_notify_event self ∧ n = EnterNotify widget event ∧
      heap σ !! self = Some hp ∧
      invoke cb n σ = (Ok tt, focus_grabbed σ (wid_of widget))).
Proof.
  destruct cb as [self|self], n as [notebook child page_num|widget event];
    cbn [invoke]; [| by left | by left |].
  - destruct (heap σ !! self) as [hp|] eqn:Hs;
      [|left; by rewrite call_dangling].
    destruct (_get_focusables child) as [s|e] eqn:E.
    + right; left. exists self, hp, notebook, child, page_num, s.
      repeat split; try done.
      erewrite call_eq; [done..|].
      rewrite (_on_page_added_Ok _ _ _ _ s) by done. apply _connect_focusables_eq.
    + left. erewrite call_eq; [|done|by apply _on_page_added_Raise].
      cbn. rewrite list_insert_id by done. by destruct σ.
  - destruct (heap σ !! self) as [hp|] eqn:Hs;
      [|left; by rewrite call_dangling].
    right; right. exists self, hp, widget, event. repeat split; try done.
    erewrite call_eq; [|done|reflexivity]. unfold focus_grabbed. cbn.
    by rewrite list_insert_id.
Qed.

Lemma connected_elem g w sig cb :
  cb ∈ connected g w sig ↔
  ∃ h, handlers g !! h = Some (Some (Connection w sig cb)).
Proof.
  unfold connected. rewrite list_elem_of_omap. split.
  - intros ([[w' sig' cb']|] & [h Hh]%list_elem_of_lookup & Hf); [|done].
    cbn in Hf. case_decide as Hd; [|done]. destruct Hd as [<- <-].
    injection Hf as <-. eauto.
  - intros [h Hh]. exists (Some (Connection w sig cb)). split.
    + apply list_elem_of_lookup. eauto.
    + cbn. by rewrite decide_True.
Qed.

Lemma invoke_enter self hp widget event σ :
  heap σ !! self = Some hp →
  invoke (bound_on_enter_notify_event self) (EnterNotify widget event) σ =
  (Ok tt, focus_grabbed σ (wid_of widget)).
Proof.
  intros Hs. destruct (invoke_cases (bound_on_enter_notify_event self)
                         (EnterNotify widget event) σ)
    as [Hsame|[(? & ? & ? & ? & ? & ? & [=] & _)|(? & ? & ? & ? & _ & [= <- <-] & _ & ->)]];
    [|done].
  exfalso. revert Hsame. cbn [invoke]. erewrite call_eq; [|done|reflexivity].
  cbn. destruct σ as [[hs mask log] hps inst]. cbn.
  intros [= Hlog _]. apply (f_equal length) in Hlog. rewrite length_app in Hlog.
  cbn in Hlog. lia.
Qed.

(** Delivering a pointer-enter notification for [widget] to a list of
    callbacks: the only effect is a number of [grab_focus] calls, all on
    [widget]. *)
Lemma enter_callbacks_grab widget event cbs σ :
  let σ' := foldl (λ σ cb, (invoke cb (EnterNotify widget event) σ).2) σ cbs in
  heap σ' = heap σ ∧ handlers (toolkit σ') = handlers (toolkit σ) ∧
  ∃ k, focus_log (toolkit σ') = focus_log (toolkit σ) ++ replicate k (wid_of widget) ∧
       (∀ self, bound_on_enter_notify_event self ∈ cbs →
                is_Some (heap σ !! self) → 0 < k).
Proof.
  revert σ. induction cbs as [|cb cbs IH]; intros σ; cbn [foldl].
  - repeat split. exists 0. rewrite app_nil_r. split; [done|].
    by intros self Hin%elem_of_nil.
  - specialize (IH (invoke cb (EnterNotify widget event) σ).2).
    cbn zeta in IH. destruct IH as (Hheap & Hhs & k & Hlog & Hpos).
    destruct (invoke_cases cb (EnterNotify widget event) σ)
      as [Hsame|[(? & ? & ? & ? & ? & ? & _ & [=] & _)|
                 (self & hp & ? & ? & -> & [= <- <-] & Hs & Hinv)]].
    + rewrite Hsame in *. repeat split; [done..|]. exists k. split; [done|].
      intros self [<-|Hin]%elem_of_cons [hp Hs]; [|by eauto].
      rewrite (invoke_enter _ hp) in Hsame by done. exfalso.
      destruct σ as [[hs mask log] hps inst]. cbn in Hsame.
      injection Hsame as Hl. apply (f_equal length) in Hl.
      rewrite length_app in Hl. cbn in Hl. lia.
    + rewrite Hinv in *. cbn [snd] in *. cbn in Hheap, Hhs, Hlog.
      repeat split; [done..|].
      exists (S k). split; [|lia]. by rewrite Hlog, <- app_assoc.
Qed.

(** C1.  When helper [self] is subscribed to 'enter-notify-event' of a
    widget, delivering a pointer-enter notification for that widget calls
    [grab_focus] at least once, and every such call is on the widget the
    pointer entered; nothing else in the editor changes. *)
Theorem pointer_enter_grabs_focus σ self hp widget event h :
  heap σ !! self = Some hp →
  handlers (toolkit σ) !! h =
    Some (Some (Connection (wid_of widget) enter_notify_event
                           (bound_on_enter_notify_event self))) →
  ∃ σ' k,
    emit (EnterNotify widget event) σ = (Ok tt, σ') ∧ 0 < k ∧
    focus_log (toolkit σ') = focus_log (toolkit σ) ++ replicate k (wid_of widget) ∧
    handlers (toolkit σ') = handlers (toolkit σ) ∧ heap σ' = heap σ.
Proof.
  intros Hs Hh. unfold emit.
  destruct (enter_callbacks_grab widget event
              (connected (toolkit σ) (emitter (EnterNotify widget event))
                         (signal_of (EnterNotify widget event))) σ)
    as (Hheap & Hhs & k & Hlog & Hpos).
  eexists _, k. split; [done|]. repeat split; [|done..].
  apply (Hpos self); [|by eauto]. apply connected_elem. eauto.
Qed.

Lemma pointer_enter_grabs_focus_witness :
  let σ := exec 0 [Activate] editor1 in
  ∃ σ' k,
    emit (EnterNotify page3 (0, 0)%Z) σ = (Ok tt, σ') ∧ 0 < k ∧
    focus_log (toolkit σ') = focus_log (toolkit σ) ++ replicate k (wid_of page3) ∧
    handlers (toolkit σ') = handlers (toolkit σ) ∧ heap σ' = heap σ.
Proof.
  intros σ.
  apply (pointer_enter_grabs_focus σ 0
           (Helper window1 {[2%positive := 0]} {[3%positive := 1]}) page3 (0, 0)%Z 1);
    reflexivity.
Defined.

Lemma union_results_Raise f cs acc e :
  union_results f cs acc = Raise e → ∃ c, c ∈ cs ∧ f c = Raise e.
Proof.
  revert acc. induction cs as [|c cs IH]; intros acc; cbn [union_results]; [done|].
  destruct (f c) as [t|e'] eqn:E.
  - intros (c' & Hin & Hc')%IH. exists c'. split; [by right|done].
  - intros [= ->]. exists c. split; [left|done].
Qed.

Lemma _get_focusables_raises_AttributeError w e :
  _get_focusables w = Raise e → e = AttributeError.
Proof.
  induction w as [j nb cf|j nb cf cs IH] using widget_tree_ind.
  - destruct cf as [[]|]; cbn; by intros [= <-].
  - destruct cf as [b|]; [|by intros [= <-]].
    rewrite _get_focusables_children.
    intros (c & Hin & Hc)%union_results_Raise.
    rewrite Forall_forall in IH. by apply (IH c).
Qed.

(** ** The widget walks *)




(** C7, as the claim states it, fails: a widget without [get_property] in
    the tree makes [_get_focusables] raise, although [get_children] is
    guarded. *)
Lemma _get_focusables_raises_on_bare_page :
  in_subtree (Widget 4 false None None) notebook_with_bare_page ∧
  _get_focusables notebook_with_bare_page = Raise AttributeError.
Proof.
  split; [|reflexivity].
  eapply in_subtree_child; [reflexivity| |apply in_subtree_root].
  apply elem_of_cons; right. apply elem_of_cons; by left.
Qed.

(** C7, amended.  The capability whose absence the walks tolerate is
    [get_children]: a widget without it is passed over as a widget without
    children, without an error, and the walk returns the result for the
    remaining widgets.  [_get_notebooks] completes on every widget tree and
    returns exactly the notebooks of the subtree that expose
    [get_children].  [_get_focusables] completes exactly when every widget
    of the subtree answers [get_property('can_focus')]; it then returns
    exactly the widgets of the subtree that can take the focus (a widget
    without [get_children] among them, when it can), and otherwise it raises
    [AttributeError].  The subtree ends at the widgets without
    [get_children]. *)
Theorem walks_tolerate_missing_get_children w :
  (∀ i v, _get_notebooks w !! i = Some v →
          wid_of v = i ∧ in_subtree v w ∧
          is_notebook v = true ∧ is_Some (get_children v)) ∧
  (∀ v, in_subtree v w → is_notebook v = true → is_Some (get_children v) →
        wid_of v ∈ dom (_get_notebooks w)) ∧
  (is_Ok (_get_focusables w) ↔ ∀ v, in_subtree v w → is_Some (can_focus v)) ∧
  (∀ s, _get_focusables w = Ok s →
     (∀ i v, s !! i = Some v →
             wid_of v = i ∧ in_subtree v w ∧ can_focus v = Some true) ∧
     (∀ v, in_subtree v w → can_focus v = Some true → wid_of v ∈ dom s)) ∧
  (∀ e, _get_focusables w = Raise e → e = AttributeError) ∧
  (get_children w = None →
     _get_notebooks w = ∅ ∧
     ∀ b, can_focus w = Some b →
          _get_focusables w = Ok (if b then <[wid_of w := w]> ∅ else ∅)).
Proof.
  split; [|split; [|split; [|split; [|split]]]].
  - intros i v H. by destruct (_get_notebooks_sound w i v H) as (? & ? & ? & ?).
  - intros v. apply _get_notebooks_complete.
  - apply _get_focusables_Ok_iff.
  - intros s E. split.
    + intros i v H.
      by destruct (_get_focusables_sound w s i v E H) as (? & ? & ?).
    + intros v. by apply _get_focusables_complete.
  - apply _get_focusables_raises_AttributeError.
  - destruct w as [i nb cf [cs|]]; cbn; intros H; [done|].
    split; [done|]. by intros b ->.
Qed.

Lemma walks_tolerate_missing_get_children_witness :
  (∀ i v, _get_notebooks window_mixed !! i = Some v →
          wid_of v = i ∧ in_subtree v window_mixed ∧
          is_notebook v = true ∧ is_Some (get_children v)) ∧
  (∀ v, in_subtree v window_mixed → is_notebook v = true →
        is_Some (get_children v) →
        wid_of v ∈ dom (_get_notebooks window_mixed)) ∧
  (is_Ok (_get_focusables window_mixed) ↔
   ∀ v, in_subtree v window_mixed → is_Some (can_focus v)) ∧
  (∀ s, _get_focusables window_mixed = Ok s →
     (∀ i v, s !! i = Some v →
             wid_of v = i ∧ in_subtree v window_mixed ∧ can_focus v = Some true) ∧
     (∀ v, in_subtree v window_mixed → can_focus v = Some true →
           wid_of v ∈ dom s)) ∧
  (∀ e, _get_focusables window_mixed = Raise e → e = AttributeError) ∧
  (get_children window_mixed = None →
     _get_notebooks window_mixed = ∅ ∧
     ∀ b, can_focus window_mixed = Some b →
          _get_focusables window_mixed =
          Ok (if b then <[wid_of window_mixed := window_mixed]> ∅ else ∅)).
Proof. apply (walks_tolerate_missing_get_children window_mixed). Defined.

(** On [window_mixed] the first child has no [get_children]: it is left out
    of the notebooks, it is collected as focusable, and the walk goes on to
    the notebook behind it and to its page. *)
Lemma walks_on_window_mixed :
  dom (_get_notebooks window_mixed) = {[2%positive]} ∧
  dom_of (_get_focusables window_mixed) = Ok {[3%positive; 4%positive]}.
Proof. split; [|f_equal]; apply set_eq; intros w; vm_compute; set_solver. Qed.

(** ** The plugin *)

Lemma plugin_getitem_missing window σ :
  _instances σ !! window = None →
  PointerFocusPlugin.getitem window σ = (Raise KeyError, σ).
Proof. intros H. unfold PointerFocusPlugin.getitem. by rewrite H. Qed.

(** C9.  [PointerFocusPlugin.deactivate(window)] for a window that has no
    entry in [_instances] raises [KeyError] and changes nothing: the instance
    mapping, the helper objects and the toolkit are as before. *)
Theorem plugin_deactivate_untracked window σ :
  _instances σ !! wid_of window = None →
  PointerFocusPlugin.deactivate window σ = (Raise KeyError, σ).
Proof.
  intros H. unfold PointerFocusPlugin.deactivate, mbind, M_bind.
  by rewrite plugin_getitem_missing.
Qed.

Lemma plugin_deactivate_untracked_witness :
  _instances world0 !! wid_of window1 = None ∧
  PointerFocusPlugin.deactivate window1 world0 = (Raise KeyError, world0).
Proof.
  split; [reflexivity|]. apply (plugin_deactivate_untracked window1 world0).
  reflexivity.
Defined.

(** A window that was deactivated is no longer tracked, so a second
    [deactivate] for it raises. *)
Lemma plugin_deactivate_forgets window σ σ' :
  PointerFocusPlugin.deactivate window σ = (Ok tt, σ') →
  _instances σ' !! wid_of window = None.
Proof.
  unfold PointerFocusPlugin.deactivate, PointerFocusPlugin.pop,
    PointerFocusPlugin.getitem, mbind, M_bind, modify, mret, M_ret.
  destruct (_instances σ !! wid_of window) as [self|] eqn:E; [|done].
  destruct (call self (deactivate self) σ) as [[[]|e] σ1] eqn:Ec; [|done].
  assert (_instances σ1 = _instances σ) as Hi.
  { revert Ec. unfold call. destruct (heap σ !! self) as [hp|]; [|by intros [= <-]].
    destruct (deactivate self (hp, toolkit σ)) as [r [hp' g']]. by intros [= _ <-]. }
  rewrite Hi, E. intros [= <-]. cbn. apply lookup_delete_eq.
Qed.

(** ** A page is added *)

Lemma keys_elem (s : wset) w : w ∈ keys s ↔ w ∈ dom s.
Proof.
  unfold keys. rewrite list_elem_of_fmap, elem_of_dom. split.
  - intros ([i v] & -> & Hin%elem_of_map_to_list). by exists v.
  - intros [v Hv]. exists (w, v). split; [done|]. by apply elem_of_map_to_list.
Qed.

Lemma invoke_page_added self hp notebook child page_num s σ :
  heap σ !! self = Some hp → _get_focusables child = Ok s →
  invoke (bound_on_page_added self) (PageAdded notebook child page_num) σ =
  (Ok tt, focusables_connected σ self hp (keys s)).
Proof.
  intros Hs E. cbn [invoke]. erewrite call_eq; [done..|].
  rewrite (_on_page_added_Ok _ _ _ _ s) by done. apply _connect_focusables_eq.
Qed.

(** Helper objects stay where they are. *)
Lemma invoke_keeps_objects cb n σ self :
  is_Some (heap σ !! self) → is_Some (heap (invoke cb n σ).2 !! self).
Proof.
  intros Hs.
  destruct (invoke_cases cb n σ)
    as [->|[(self' & hp & ? & ? & ? & s & _ & _ & _ & _ & ->)|
            (? & ? & ? & ? & _ & _ & _ & ->)]]; [done| |done].
  cbn. apply lookup_lt_is_Some. rewrite length_insert.
  by apply lookup_lt_is_Some.
Qed.

Lemma focusables_connected_subscribed σ self hp ws :
  heap σ !! self = Some hp →
  subscribed_to self ws (focusables_connected σ self hp ws).
Proof.
  intros Hs. eexists. split.
  { cbn. apply list_lookup_insert_eq. by eapply lookup_lt_Some. }
  intros w Hw. cbn.
  destruct (record_handlers_lookup_in (length (handlers (toolkit σ))) ws
              (_handlers_per_focusable hp) w Hw) as (k & Hk & Hl).
  exists (length (handlers (toolkit σ)) + k). split; [done|]. split.
  - rewrite lookup_app_r by lia.
    replace (length (handlers (toolkit σ)) + k - length (handlers (toolkit σ)))
      with k by lia.
    unfold connections_to. by rewrite list_lookup_fmap, Hk.
  - apply masked_elem. by left.
Qed.

Lemma subscribed_to_kept self notebook child page_num s cb σ :
  _get_focusables child = Ok s →
  subscribed_to self (keys s) σ →
  subscribed_to self (keys s)
    (invoke cb (PageAdded notebook child page_num) σ).2.
Proof.
  intros E HQ.
  destruct (invoke_cases cb (PageAdded notebook child page_num) σ)
    as [->|[(self' & hp' & ? & ? & ? & s' & _ & [= <- <- <-] & Hs' & E' & ->)|
            (? & ? & ? & ? & _ & [=] & _)]]; [done|].
  rewrite E in E'. injection E' as <-. cbn [snd].
  destruct (decide (self' = self)) as [->|Hne].
  { by apply focusables_connected_subscribed. }
  destruct HQ as (hp & Hs & Hall). exists hp. split.
  { cbn. by rewrite list_lookup_insert_ne. }
  intros w Hw. destruct (Hall w Hw) as (h & Hh & Hc & Hm).
  exists h. split; [done|]. cbn. split.
  - by apply lookup_app_l_Some.
  - apply masked_elem. by right.
Qed.

Lemma page_added_callbacks_subscribe self notebook child page_num s cbs σ :
  _get_focusables child = Ok s →
  subscribed_to self (keys s) σ ∨
    (bound_on_page_added self ∈ cbs ∧ is_Some (heap σ !! self)) →
  subscribed_to self (keys s)
    (foldl (λ σ cb, (invoke cb (PageAdded notebook child page_num) σ).2) σ cbs).
Proof.
  intros E. revert σ. induction cbs as [|cb cbs IH]; intros σ; cbn [foldl].
  - intros [?|[Hin%elem_of_nil _]]; done.
  - intros [HQ|[Hin [hp Hs]]]; apply IH.
    + left. by apply subscribed_to_kept.
    + apply elem_of_cons in Hin as [<-|Hin].
      * left. rewrite (invoke_page_added _ hp _ _ _ s) by done.
        by apply focusables_connected_subscribed.
      * right. split; [done|]. apply invoke_keeps_objects. by exists hp.
Qed.




(** ** Entries of the two handler tables *)

Lemma keeps_entries_refl hp : keeps_entries hp hp.
Proof. by split. Qed.

Lemma keeps_entries_trans hp1 hp2 hp3 :
  keeps_entries hp1 hp2 → keeps_entries hp2 hp3 → keeps_entries hp1 hp3.
Proof. intros [] []. split; set_solver. Qed.

Lemma record_handlers_subseteq next ws (d : gmap wid handler_id) :
  dom d ⊆ dom (record_handlers next ws d).
Proof. intros w Hw. apply record_handlers_dom. by right. Qed.

(** A callback keeps the entries of every helper. *)
Lemma invoke_keeps_entries cb n σ self hp :
  heap σ !! self = Some hp →
  ∃ hp', heap (invoke cb n σ).2 !! self = Some hp' ∧ keeps_entries hp hp'.
Proof.
  intros Hs.
  destruct (invoke_cases cb n σ)
    as [->|[(self' & hp1 & ? & ? & ? & s & _ & _ & Hs1 & _ & ->)|
            (? & ? & ? & ? & _ & _ & _ & ->)]];
    [by eauto using keeps_entries_refl| |by eauto using keeps_entries_refl].
  cbn. destruct (decide (self' = self)) as [->|Hne].
  - rewrite list_lookup_insert_eq by (by eapply lookup_lt_Some).
    rewrite Hs in Hs1. injection Hs1 as <-.
    eexists. split; [done|]. split; cbn; [done|]. apply record_handlers_subseteq.
  - rewrite list_lookup_insert_ne by done. eauto using keeps_entries_refl.
Qed.

Lemma emit_keeps_entries n σ self hp :
  heap σ !! self = Some hp →
  ∃ hp', heap (emit n σ).2 !! self = Some hp' ∧ keeps_entries hp hp'.
Proof.
  unfold emit. cbn [snd].
  generalize (connected (toolkit σ) (emitter n) (signal_of n)).
  intros cbs. revert σ hp. induction cbs as [|cb cbs IH]; intros σ hp Hs; cbn [foldl].
  - eauto using keeps_entries_refl.
  - destruct (invoke_keeps_entries cb n σ self hp Hs) as (hp1 & Hs1 & Hk1).
    destruct (IH _ _ Hs1) as (hp2 & Hs2 & Hk2).
    eauto using keeps_entries_trans.
Qed.

Lemma activate_keeps_entries self hp g :
  keeps_entries hp (activate self (hp, g)).2.1.
Proof.
  rewrite activate_eq.
  destruct (union_results _ _ _) as [s|e].
  - unfold notebooks_connected. rewrite _connect_focusables_eq. cbn.
    split; cbn; apply record_handlers_subseteq.
  - cbn. split; cbn; [apply record_handlers_subseteq|done].
Qed.

(** A call on helper [self'] leaves the other helpers alone. *)
Lemma call_lookup {A} self' (m : M frame A) σ self hp :
  heap σ !! self = Some hp →
  heap (call self' m σ).2 !! self =
  Some (if decide (self' = self) then (m (hp, toolkit σ)).2.1 else hp).
Proof.
  intros Hs. unfold call. case_decide as Hd.
  - subst self'. rewrite Hs. destruct (m (hp, toolkit σ)) as [r [hp' g']]. cbn.
    apply list_lookup_insert_eq. by eapply lookup_lt_Some.
  - destruct (heap σ !! self') as [hp1|]; [|done].
    destruct (m (hp1, toolkit σ)) as [r [hp' g']]. cbn.
    by rewrite list_lookup_insert_ne.
Qed.

(** C6.  The entries of the two handler tables of a helper are removed by
    its [deactivate] and by nothing else.  Whatever else happens (the helper
    or another one is activated, another helper is deactivated, a
    notification is delivered, the plugin is activated for a window) keeps
    every key of both tables.  [deactivate] returns normally, leaves both
    tables empty, and afterwards no handle that was recorded for a widget is
    a connected handler of that widget. *)
Theorem entries_removed_only_by_deactivate σ self hp :
  heap σ !! self = Some hp →
  (∀ self' a, (a = Deactivate → self' ≠ self) →
     ∃ hp', heap (run self' a σ).2 !! self = Some hp' ∧ keeps_entries hp hp') ∧
  (∀ window,
     ∃ hp', heap (PointerFocusPlugin.activate window σ).2 !! self = Some hp' ∧
            keeps_entries hp hp') ∧
  ∃ σ', run self Deactivate σ = (Ok tt, σ') ∧
        heap σ' !! self = Some (Helper (_window hp) ∅ ∅) ∧
        ∀ w h,
          _handlers_per_notebook hp !! w = Some h ∨
          _handlers_per_focusable hp !! w = Some h →
          ∀ c, handlers (toolkit σ') !! h = Some (Some c) → conn_widget c ≠ w.
Proof.
  intros Hs. split; [|split].
  - intros self' [| |n] Ha; cbn [run].
    + rewrite (call_lookup _ _ _ _ hp) by done. eexists. split; [done|].
      case_decide; [apply activate_keeps_entries|apply keeps_entries_refl].
    + rewrite (call_lookup _ _ _ _ hp) by done. eexists. split; [done|].
      rewrite decide_False by auto. apply keeps_entries_refl.
    + by apply emit_keeps_entries.
  - intros window.
    unfold PointerFocusPlugin.activate, PointerFocusPlugin.setitem_new_helper,
      PointerFocusPlugin.getitem, mbind, M_bind, modify.
    cbn. rewrite lookup_insert_eq.
    rewrite (call_lookup _ _ _ _ hp) by (cbn; by apply lookup_app_l_Some).
    eexists. split; [done|].
    case_decide; [apply activate_keeps_entries|apply keeps_entries_refl].
  - eexists. split; [|split].
    + cbn [run]. eapply call_eq; [done|apply deactivate_eq].
    + cbn. apply list_lookup_insert_eq. by eapply lookup_lt_Some.
    + cbn. intros w h [Hn|Hf] c Hc.
      * apply elem_of_map_to_list in Hn.
        destruct (without_all_lookup (map_to_list (_handlers_per_focusable hp))
                    (without_all (map_to_list (_handlers_per_notebook hp))
                                 (handlers (toolkit σ))) h) as [Hk|Hk];
          rewrite Hk in Hc; [|done].
        by eapply without_all_gone.
      * apply elem_of_map_to_list in Hf. by eapply without_all_gone.
Qed.

Lemma entries_removed_only_by_deactivate_witness :
  let σ := exec 0 [Activate] editor1 in
  let hp := Helper window1 {[2%positive := 0]} {[3%positive := 1]} in
  (∀ self' a, (a = Deactivate → self' ≠ 0) →
     ∃ hp', heap (run self' a σ).2 !! 0 = Some hp' ∧ keeps_entries hp hp') ∧
  (∀ window,
     ∃ hp', heap (PointerFocusPlugin.activate window σ).2 !! 0 = Some hp' ∧
            keeps_entries hp hp') ∧
  ∃ σ', run 0 Deactivate σ = (Ok tt, σ') ∧
        heap σ' !! 0 = Some (Helper (_window hp) ∅ ∅) ∧
        ∀ w h,
          _handlers_per_notebook hp !! w = Some h ∨
          _handlers_per_focusable hp !! w = Some h →
          ∀ c, handlers (toolkit σ') !! h = Some (Some c) → conn_widget c ≠ w.
Proof.
  intros σ hp. apply (entries_removed_only_by_deactivate σ 0 hp). reflexivity.
Defined.

(** ** Notebooks are found once, at activation *)

Lemma connections_to_lookup sig cb ws k c :
  connections_to sig cb ws !! k = Some (Some c) →
  ∃ w, ws !! k = Some w ∧ c = Connection w sig cb.
Proof.
  unfold connections_to. rewrite list_lookup_fmap.
  destruct (ws !! k) as [w|]; [|done]. intros [= <-]. eauto.
Qed.






(** A callback of another helper does not touch [self]. *)
Lemma invoke_of_other self cb n σ :
  owner cb ≠ self →
  heap (invoke cb n σ).2 !! self = heap σ !! self ∧
  ∀ w sig h, subscription (invoke cb n σ).2 self w sig h → subscription σ self w sig h.
Proof.
  intros Hown.
  destruct (invoke_cases cb n σ)
    as [->|[(self' & hp1 & ? & ? & ? & s & -> & _ & Hs1 & _ & ->)|
            (? & ? & ? & ? & _ & _ & _ & ->)]]; [done| |done].
  cbn in Hown. split.
  - cbn. by rewrite list_lookup_insert_ne.
  - intros w sig h (cb & Hh & Hcb). cbn in Hh.
    apply lookup_app_Some in Hh as [Hh|[_ Hh]]; [by exists cb|].
    apply connections_to_lookup in Hh as (w' & _ & [= _ _ ->]). done.
Qed.




(** ** A page that is added twice *)

(** C2 fails on the code.  After the page of the notebook was put back,
    helper 0 holds two connected handlers on 'enter-notify-event' of the
    page, handles 1 and 2, while its table has room for one. *)
Theorem page_put_back_subscribed_twice :
  let σ := exec 0 page_put_back editor1 in
  subscription σ 0 3 enter_notify_event 1 ∧
  subscription σ 0 3 enter_notify_event 2 ∧
  ¬ at_most_one_subscription σ 0.
Proof.
  intros σ.
  assert (subscription σ 0 3 enter_notify_event 1) as H1
    by (eexists; split; reflexivity).
  assert (subscription σ 0 3 enter_notify_event 2) as H2
    by (eexists; split; reflexivity).
  repeat split; [done..|]. intros Hone.
  discriminate (Hone _ _ _ _ H1 H2).
Qed.

(** C3 fails on the code.  After the page of the notebook was put back, the
    first handler on the page (handle 1) is still connected but no longer
    recorded: the table holds handle 2.  [deactivate] then disconnects what
    is recorded and leaves handler 1 connected, and a pointer-enter
    notification for the page still grabs the focus. *)
Theorem page_put_back_leaks_listener :
  let σ := exec 0 page_put_back editor1 in
  let σ' := exec 0 [Deactivate] σ in
  (subscription σ 0 3 enter_notify_event 1 ∧ ¬ recorded σ 0 3 1) ∧
  ¬ subscriptions_recorded σ 0 ∧
  run 0 Deactivate σ = (Ok tt, σ') ∧
  subscription σ' 0 3 enter_notify_event 1 ∧
  ¬ no_subscription σ' 0 ∧
  focus_log (toolkit (exec 0 [Notify (EnterNotify page3 (0, 0)%Z)] σ')) = [3%positive].
Proof.
  intros σ σ'.
  assert (subscription σ 0 3 enter_notify_event 1) as H1
    by (eexists; split; reflexivity).
  assert (¬ recorded σ 0 3 1) as Hnot.
  { intros (hp & Hs & Hr). vm_compute in Hs. injection Hs as <-.
    destruct Hr as [Hr|Hr]; vm_compute in Hr; discriminate Hr. }
  assert (subscription σ' 0 3 enter_notify_event 1) as H1'
    by (eexists; split; reflexivity).
  split; [done|]. split; [intros Hrec; by apply Hnot, (Hrec _ _ _ H1)|].
  split; [reflexivity|]. split; [done|].
  split; [intros Hno; by apply (Hno _ _ _ H1')|]. reflexivity.
Qed.

(** ** When the books are in order *)

Lemma bookkept_at_most_one self σ :
  bookkept self σ → at_most_one_subscription σ self.
Proof.
  intros (hp & Hs & Hall) w sig h1 h2 (cb1 & H1 & Ho1) (cb2 & H2 & Ho2).
  destruct (Hall _ _ H1 Ho1) as [[E1 R1]|[E1 R1]],
           (Hall _ _ H2 Ho2) as [[E2 R2]|[E2 R2]];
    cbn in *; simplify_eq; congruence.
Qed.

Lemma bookkept_recorded self σ :
  bookkept self σ → subscriptions_recorded σ self.
Proof.
  intros (hp & Hs & Hall) w sig h (cb & Hh & Ho). exists hp. split; [done|].
  destruct (Hall _ _ Hh Ho) as [[_ R]|[_ R]]; cbn in R; auto.
Qed.

Lemma record_handlers_lookup_nodup next ws d k w :
  NoDup ws → ws !! k = Some w → record_handlers next ws d !! w = Some (next + k).
Proof.
  intros Hnd. revert next d k.
  induction Hnd as [|w0 ws Hnotin _ IH]; intros next d k Hk; [done|].
  cbn [record_handlers]. destruct k as [|k]; cbn in Hk.
  - injection Hk as ->. rewrite record_handlers_lookup_notin by done.
    rewrite lookup_insert_eq. f_equal. lia.
  - rewrite (IH _ _ k) by done. f_equal. lia.
Qed.

(** Connecting widgets that are not yet in the table keeps the books in
    order. *)
Lemma focusables_connected_bookkept self σ hp ws :
  bookkept self σ → heap σ !! self = Some hp → NoDup ws →
  (∀ w, w ∈ ws → _handlers_per_focusable hp !! w = None) →
  bookkept self (focusables_connected σ self hp ws).
Proof.
  intros (hp0 & Hs0 & Hall) Hs Hnd Hnew. rewrite Hs in Hs0. injection Hs0 as <-.
  eexists. split.
  { cbn. apply list_lookup_insert_eq. by eapply lookup_lt_Some. }
  cbn. intros h c [Hh|[Hlen Hh]]%lookup_app_Some Ho.
  - destruct (Hall _ _ Hh Ho) as [[E R]|[E R]]; [by left|]. right.
    split; [done|]. rewrite record_handlers_lookup_notin; [done|].
    intros Hin. specialize (Hnew _ Hin). congruence.
  - apply connections_to_lookup in Hh as (w & Hw & ->). right. split; [done|].
    cbn. rewrite (record_handlers_lookup_nodup _ _ _ _ _ Hnd Hw). f_equal. lia.
Qed.

(** The callback of the helper, run for a page none of whose focusable
    widgets is in the table yet. *)
Lemma new_page_callback_bookkept self σ hp notebook child page_num s :
  bookkept self σ → heap σ !! self = Some hp →
  _get_focusables child = Ok s →
  (∀ w, w ∈ dom s → _handlers_per_focusable hp !! w = None) →
  bookkept self
    (invoke (bound_on_page_added self) (PageAdded notebook child page_num) σ).2.
Proof.
  intros Hb Hs E Hnew. rewrite (invoke_page_added _ hp _ _ _ s) by done.
  apply focusables_connected_bookkept; [done..|apply NoDup_fst_map_to_list|].
  intros w Hw. by apply Hnew, keys_elem.
Qed.

(** A callback of another helper keeps the books of [self] in order. *)
Lemma other_callback_bookkept self cb n σ :
  owner cb ≠ self → bookkept self σ → bookkept self (invoke cb n σ).2.
Proof.
  intros Hown Hb. pose proof Hb as (hp & Hs & Hall).
  destruct (invoke_cases cb n σ)
    as [->|[(self' & hp1 & ? & ? & ? & s & -> & _ & Hs1 & _ & ->)|
            (? & ? & ? & ? & _ & _ & _ & ->)]];
    [done| |exists hp; split; [exact Hs|exact Hall]].
  cbn in Hown. exists hp. split.
  - cbn. by rewrite list_lookup_insert_ne.
  - cbn. intros h c [Hh|[_ Hh]]%lookup_app_Some Ho; [by apply Hall|].
    apply connections_to_lookup in Hh as (w & _ & ->). done.
Qed.

(** [activate] on a fresh helper leaves the books in order. *)
Lemma activate_bookkept σ self window :
  heap σ !! self = Some (__init__ window) →
  (∀ h c, handlers (toolkit σ) !! h = Some (Some c) →
          owner (conn_callback c) ≠ self) →
  bookkept self (run self Activate σ).2.
Proof.
  intros Hs Hfresh.
  assert (self < length (heap σ)) as Hlt by (by eapply lookup_lt_Some).
  set (hp1 := Helper window
                (record_handlers (length (handlers (toolkit σ)))
                   (keys (_get_notebooks window)) ∅) ∅).
  set (σ1 := World
               (Gtk (handlers (toolkit σ) ++
                       connections_to page_added (bound_on_page_added self)
                         (keys (_get_notebooks window)))
                    (event_mask (toolkit σ)) (focus_log (toolkit σ)))
               (<[self := hp1]> (heap σ)) (_instances σ)).
  assert (heap σ1 !! self = Some hp1) as Hs1
    by (cbn; by apply list_lookup_insert_eq).
  assert (bookkept self σ1) as Hb1.
  { exists hp1. split; [done|]. cbn.
    intros h c [Hh|[Hlen Hh]]%lookup_app_Some Ho; [by destruct (Hfresh _ _ Hh)|].
    apply connections_to_lookup in Hh as (w & Hw & ->). left. split; [done|].
    cbn. rewrite (record_handlers_lookup_nodup _ _ _ _ w
                    (NoDup_fst_map_to_list _) Hw).
    f_equal. lia. }
  cbn [run]. pose proof (activate_eq self (__init__ window) (toolkit σ)) as Hact.
  unfold notebooks_connected in Hact.
  revert Hact. destruct (union_results _ _ _) as [s|e]; intros Hact.
  - rewrite _connect_focusables_eq in Hact.
    erewrite call_eq; [|done|exact Hact]. cbn [snd].
    assert (∀ σ2, σ2 = focusables_connected σ1 self hp1 (keys s) →
                  bookkept self σ2) as Hgoal.
    { intros σ2 ->.
      apply focusables_connected_bookkept;
        [done..|apply NoDup_fst_map_to_list|done]. }
    apply Hgoal. unfold focusables_connected, σ1, hp1. cbn.
    by rewrite list_insert_insert_eq.
  - erewrite call_eq; [|done|exact Hact]. exact Hb1.
Qed.

(** [deactivate] with the books in order leaves no subscription. *)
Lemma deactivate_bookkept self σ :
  bookkept self σ → no_subscription (run self Deactivate σ).2 self.
Proof.
  intros (hp & Hs & Hall) w sig h (cb & Hh & Ho). revert Hh. cbn [run].
  erewrite call_eq; [|done|apply deactivate_eq]. cbn. intros Hh.
  destruct (without_all_lookup (map_to_list (_handlers_per_focusable hp))
              (without_all (map_to_list (_handlers_per_notebook hp))
                           (handlers (toolkit σ))) h) as [Hk|Hk];
    [|congruence].
  destruct (without_all_lookup (map_to_list (_handlers_per_notebook hp))
              (handlers (toolkit σ)) h) as [Hk'|Hk']; [|congruence].
  assert (handlers (toolkit σ) !! h = Some (Some (Connection w sig cb))) as H0
    by congruence.
  destruct (Hall _ _ H0 Ho) as [[_ R]|[_ R]]; cbn in R;
    apply elem_of_map_to_list in R.
  - rewrite Hk in Hh. by eapply (without_all_gone _ _ w h); [exact R|exact Hh|].
  - by eapply (without_all_gone _ _ w h); [exact R|exact Hh|].
Qed.

(** When the page that is announced is a new one, nothing is leaked: after
    [deactivate] the helper holds no subscription. *)
Lemma new_page_no_leak :
  no_subscription
    (exec 0 [Activate; Notify (PageAdded notebook2 page5 1); Deactivate] editor1) 0.
Proof.
  intros w sig h (cb & Hh & _). vm_compute in Hh.
  destruct h as [|[|[|h]]]; discriminate Hh.
Qed.

(** ** Termination of the walks *)

Section termination.
Variable objects : wid → Graph.node.

(** Every object lies at a finite depth, and the children of an object
    lie strictly below it: the objects form a finite acyclic tree (or a
    graph with sharing, but without cycles). *)
Variable depth : wid → nat.
Hypothesis children_below : ∀ p cs c,
  Graph.node_children (objects p) = Some cs → c ∈ cs → depth c < depth p.

Lemma union_calls_total f cs acc :
  Forall (λ c, is_Some (f c)) cs → is_Some (Graph.union_calls f cs acc).
Proof.
  intros HF. revert acc. induction HF as [|c cs [s E] _ IH]; intros acc;
    cbn [Graph.union_calls]; [by eexists|].
  rewrite E. apply IH.
Qed.

Lemma union_result_calls_total f cs acc :
  Forall (λ c, is_Some (f c)) cs → is_Some (Graph.union_result_calls f cs acc).
Proof.
  intros HF. revert acc. induction HF as [|c cs [r E] _ IH]; intros acc;
    cbn [Graph.union_result_calls]; [by eexists|].
  rewrite E. destruct r; [apply IH|by eexists].
Qed.

Lemma _get_notebooks_within_depth fuel widget :
  depth widget < fuel → is_Some (Graph._get_notebooks objects fuel widget).
Proof using children_below.
  revert widget. induction fuel as [|fuel IH]; intros widget Hd; [lia|].
  cbn [Graph._get_notebooks].
  destruct (Graph.node_children (objects widget)) as [cs|] eqn:E; [|by eexists].
  apply union_calls_total, Forall_forall. intros c Hc. apply IH.
  specialize (children_below widget cs c E Hc). lia.
Qed.

Lemma _get_focusables_within_depth fuel widget :
  depth widget < fuel → is_Some (Graph._get_focusables objects fuel widget).
Proof using children_below.
  revert widget. induction fuel as [|fuel IH]; intros widget Hd; [lia|].
  cbn [Graph._get_focusables].
  destruct (Graph.node_can_focus (objects widget)) as [b|]; [|by eexists].
  destruct (Graph.node_children (objects widget)) as [cs|] eqn:E; [|by eexists].
  apply union_result_calls_total, Forall_forall. intros c Hc. apply IH.
  specialize (children_below widget cs c E Hc). lia.
Qed.

Lemma unfold_within_depth fuel ref :
  depth ref < fuel → is_Some (Graph.unfold objects fuel ref).
Proof using children_below.
  revert ref. induction fuel as [|fuel IH]; intros ref Hd; [lia|].
  cbn [Graph.unfold].
  destruct (Graph.node_children (objects ref)) as [cs|] eqn:E; [|by eexists].
  assert (is_Some (mapM (Graph.unfold objects fuel) cs)) as [ts ->]; [|by eexists].
  apply mapM_is_Some, Forall_forall. intros c Hc. apply IH.
  specialize (children_below ref cs c E Hc). lia.
Qed.
End termination.

(** C10.  When the objects form a finite acyclic tree (every object has a
    depth, and children lie strictly below their parent), both walks return:
    the recursion, which only descends to children, is never deeper than the
    depth of the widget it starts from. *)
Theorem walks_terminate objects (depth : wid → nat) :
  (∀ p cs c, Graph.node_children (objects p) = Some cs → c ∈ cs →
             depth c < depth p) →
  ∀ widget fuel, depth widget < fuel →
    is_Some (Graph._get_notebooks objects fuel widget) ∧
    is_Some (Graph._get_focusables objects fuel widget).
Proof.
  intros Hbelow widget fuel Hd. split.
  - by eapply _get_notebooks_within_depth.
  - by eapply _get_focusables_within_depth.
Qed.

Lemma objects1_children_below p cs c :
  Graph.node_children (objects1 p) = Some cs → c ∈ cs → depth1 c < depth1 p.
Proof.
  unfold objects1. intros H Hin.
  destruct (decide (p = 1%positive)) as [->|?].
  { injection H as <-. apply list_elem_of_singleton in Hin as ->.
    vm_compute. lia. }
  destruct (decide (p = 2%positive)) as [->|?]; [|done].
  injection H as <-. apply list_elem_of_singleton in Hin as ->.
  vm_compute. lia.
Qed.

Lemma walks_terminate_witness :
  is_Some (Graph._get_notebooks objects1 3 1%positive) ∧
  is_Some (Graph._get_focusables objects1 3 1%positive).
Proof.
  apply (walks_terminate objects1 depth1 objects1_children_below 1%positive 3).
  vm_compute. lia.
Defined.

(** On a cycle the walks do not return, whatever the bound. *)
Lemma walks_diverge_on_knot fuel ref :
  Graph._get_notebooks knot fuel ref = None ∧
  Graph._get_focusables knot fuel ref = None.
Proof.
  induction fuel as [|fuel [IH1 IH2]]; [done|]. cbn. by rewrite IH1, IH2.
Qed.

(** On the finite tree below a reference, the walks over the graph compute
    what the structural walks compute. *)
Lemma graph_walks_agree objects fuel ref t :
  Graph.unfold objects fuel ref = Some t →
  Graph._get_notebooks objects fuel ref = Some (dom (_get_notebooks t)) ∧
  Graph._get_focusables objects fuel ref = Some (dom_of (_get_focusables t)).
Proof.
  revert ref t. induction fuel as [|fuel IH]; intros ref t; [done|].
  cbn [Graph.unfold Graph._get_notebooks Graph._get_focusables].
  destruct (objects ref) as [nb cf ch]. cbn.
  destruct ch as [cs|]; cbn.
  2:{ intros [= <-]. cbn. split; [by rewrite dom_empty_L|].
      destruct cf as [[]|]; cbn; [|by rewrite dom_empty_L|done].
      by rewrite dom_insert_L, dom_empty_L, (right_id_L ∅ (∪)). }
  destruct (mapM (Graph.unfold objects fuel) cs) as [ts|] eqn:E; [|done].
  cbn. intros [= <-]. apply mapM_Some in E. split.
  - rewrite _get_notebooks_children.
    set (acc := if nb then <[ref := _]> _ else _).
    assert ((if nb then {[ref]} else ∅) = dom acc) as ->.
    { subst acc. destruct nb; [|by rewrite dom_empty_L].
      by rewrite dom_insert_L, dom_empty_L, (right_id_L ∅ (∪)). }
    clearbody acc. revert acc.
    induction E as [|c t' cs ts Hc _ IHE]; intros acc; cbn; [done|].
    destruct (IH _ _ Hc) as [-> _]. rewrite <- dom_union_L. apply IHE.
  - destruct cf as [b|]; [|done]. rewrite _get_focusables_children.
    set (acc := if b then <[ref := _]> _ else _).
    assert ((if b then {[ref]} else ∅) = dom acc) as ->.
    { subst acc. destruct b; [|by rewrite dom_empty_L].
      by rewrite dom_insert_L, dom_empty_L, (right_id_L ∅ (∪)). }
    clearbody acc. revert acc.
    induction E as [|c t' cs ts Hc _ IHE]; intros acc; cbn; [done|].
    destruct (IH _ _ Hc) as [_ ->].
    destruct (_get_focusables t') as [s|e]; cbn; [|done].
    rewrite <- dom_union_L. apply IHE.
Qed.

(** ** Activation of a helper *)

Lemma map_to_list_snd_elem (s : wset) v :
  v ∈ (map_to_list s).*2 ↔ ∃ i, s !! i = Some v.
Proof.
  rewrite list_elem_of_fmap. split.
  - intros ([i v'] & -> & Hin%elem_of_map_to_list). by exists i.
  - intros [i Hi]. exists (i, v). split; [done|]. by apply elem_of_map_to_list.
Qed.

(** [activate], as a step of the editor. *)
Lemma run_activate_eq σ self hp :
  heap σ !! self = Some hp →
  run self Activate σ =
  match union_results _get_focusables
          (map_to_list (_get_notebooks (_window hp))).*2 ∅ with
  | Ok s =>
      (Ok tt,
       focusables_connected (notebooks_connected_world σ self hp) self
         (notebooks_connected self hp (toolkit σ)).1 (keys s))
  | Raise e => (Raise e, notebooks_connected_world σ self hp)
  end.
Proof.
  intros Hs. cbn [run]. pose proof (activate_eq self hp (toolkit σ)) as Hact.
  revert Hact. destruct (union_results _ _ _) as [s|e]; intros Hact.
  - unfold notebooks_connected in Hact. rewrite _connect_focusables_eq in Hact.
    erewrite call_eq; [|done|exact Hact].
    unfold focusables_connected, notebooks_connected_world, notebooks_connected.
    cbn. by rewrite list_insert_insert_eq.
  - unfold notebooks_connected in Hact. erewrite call_eq; [|done|exact Hact].
    done.
Qed.

(** A widget connected by one of the loops has its handle recorded, and the
    handle is the connection made for it. *)
Lemma recorded_connection hs ws (d : gmap wid handler_id) sig cb w :
  w ∈ ws →
  ∃ h, record_handlers (length hs) ws d !! w = Some h ∧
       (hs ++ connections_to sig cb ws) !! h = Some (Some (Connection w sig cb)).
Proof.
  intros Hw.
  destruct (record_handlers_lookup_in (length hs) ws d w Hw) as (k & Hk & Hl).
  exists (length hs + k). split; [done|].
  rewrite lookup_app_r by lia.
  replace (length hs + k - length hs) with k by lia.
  unfold connections_to. by rewrite list_lookup_fmap, Hk.
Qed.

Lemma notebooks_connected_world_subscribed σ self hp i notebook :
  heap σ !! self = Some hp →
  _get_notebooks (_window hp) !! i = Some notebook →
  ∃ h, _handlers_per_notebook (notebooks_connected self hp (toolkit σ)).1 !! i = Some h ∧
       handlers (toolkit (notebooks_connected_world σ self hp)) !! h =
         Some (Some (Connection i page_added (bound_on_page_added self))).
Proof.
  intros Hs Hi. cbn.
  apply recorded_connection, keys_elem, elem_of_dom. eauto.
Qed.


Lemma walks_under_notebooks_Ok window :
  (∀ v, under_notebook window v → is_Some (can_focus v)) ↔
  is_Ok (union_results _get_focusables (map_to_list (_get_notebooks window)).*2 ∅).
Proof.
  split.
  - intros Hall. apply union_results_total, Forall_forall. intros nb Hnb.
    apply map_to_list_snd_elem in Hnb as [i Hi].
    apply _get_focusables_Ok_iff. intros v Hv. apply Hall. by exists i, nb.
  - intros [s [_ HF]%union_results_Ok] v (i & nb & Hi & Hsub).
    rewrite Forall_forall in HF.
    assert (nb ∈ (map_to_list (_get_notebooks window)).*2) as Hnb
      by (apply map_to_list_snd_elem; eauto).
    by apply (proj1 (_get_focusables_Ok_iff nb) (HF nb Hnb)).
Qed.



(** X2.  [activate] when a widget below one of the notebooks found has no
    [get_property]: it raises [AttributeError], and by then the notebooks are
    connected and recorded, while no focusable widget is: the table of
    focusable widgets and the event masks are as before, and the only new
    connections are the 'page-added' ones. *)
Theorem activate_raises_after_notebooks σ self hp :
  heap σ !! self = Some hp →
  (∃ v, under_notebook (_window hp) v ∧ can_focus v = None) →
  ∃ σ' hp',
    run self Activate σ = (Raise AttributeError, σ') ∧
    heap σ' !! self = Some hp' ∧
    _handlers_per_focusable hp' = _handlers_per_focusable hp ∧
    (∀ i notebook, _get_notebooks (_window hp) !! i = Some notebook →
       ∃ h, _handlers_per_notebook hp' !! i = Some h ∧
            handlers (toolkit σ') !! h =
              Some (Some (Connection i page_added (bound_on_page_added self)))) ∧
    handlers (toolkit σ') =
      handlers (toolkit σ) ++
      connections_to page_added (bound_on_page_added self)
        (keys (_get_notebooks (_window hp))) ∧
    event_mask (toolkit σ') = event_mask (toolkit σ).
Proof.
  intros Hs (v & Hv & Hcf).
  assert (self < length (heap σ)) as Hlt by (by eapply lookup_lt_Some).
  rewrite (run_activate_eq σ self _ Hs).
  destruct (union_results _ _ _) as [s|e] eqn:E.
  { assert (is_Some (can_focus v)) as [b Hb]; [|congruence].
    apply (proj2 (walks_under_notebooks_Ok (_window hp))); [by exists s|done]. }
  apply union_results_Raise in E as (nb & _ & E).
  apply _get_focusables_raises_AttributeError in E as ->.
  eexists _, _. split; [done|]. split.
  { cbn. by apply list_lookup_insert_eq. }
  split; [done|]. split; [|done].
  intros i notebook Hi.
  by apply (notebooks_connected_world_subscribed σ self hp i notebook).
Qed.

Lemma activate_raises_after_notebooks_witness :
  ∃ σ' hp',
    run 0 Activate editor_bare = (Raise AttributeError, σ') ∧
    heap σ' !! 0 = Some hp' ∧
    _handlers_per_focusable hp' = ∅ ∧
    (∀ i notebook, _get_notebooks window_bare !! i = Some notebook →
       ∃ h, _handlers_per_notebook hp' !! i = Some h ∧
            handlers (toolkit σ') !! h =
              Some (Some (Connection i page_added (bound_on_page_added 0)))) ∧
    handlers (toolkit σ') =
      [] ++ connections_to page_added (bound_on_page_added 0)
              (keys (_get_notebooks window_bare)) ∧
    event_mask (toolkit σ') = ∅.
Proof.
  apply (activate_raises_after_notebooks editor_bare 0 (__init__ window_bare));
    [reflexivity|].
  exists (Widget 4 false None None). split; [|reflexivity].
  exists 2%positive, notebook_with_bare_page. split; [reflexivity|].
  eapply in_subtree_child; [reflexivity| |apply in_subtree_root].
  apply elem_of_cons; right. apply elem_of_cons; by left.
Defined.

(** ** What notifications and [deactivate] leave alone *)

Lemma invoke_only_adds cb n σ :
  handlers (toolkit σ) `prefix_of` handlers (toolkit (invoke cb n σ).2) ∧
  event_mask (toolkit σ) ⊆ event_mask (toolkit (invoke cb n σ).2) ∧
  _instances (invoke cb n σ).2 = _instances σ ∧
  length (heap (invoke cb n σ).2) = length (heap σ) ∧
  ∀ self hp, heap σ !! self = Some hp →
    ∃ hp', heap (invoke cb n σ).2 !! self = Some hp' ∧
           _window hp' = _window hp ∧
           _handlers_per_notebook hp' = _handlers_per_notebook hp.
Proof.
  destruct (invoke_cases cb n σ)
    as [->|[(self' & hp1 & ? & ? & ? & s & _ & _ & Hs1 & _ & ->)|
            (? & ? & ? & ? & _ & _ & _ & ->)]]; [by eauto 10| |by eauto 10].
  cbn. split; [by apply prefix_app_r|]. split.
  { intros w Hw. apply masked_elem. by right. }
  split; [done|]. split; [by rewrite length_insert|].
  intros self hp Hs. destruct (decide (self' = self)) as [->|Hne].
  - rewrite list_lookup_insert_eq by (by eapply lookup_lt_Some).
    rewrite Hs in Hs1. injection Hs1 as <-. eauto.
  - rewrite list_lookup_insert_ne by done. eauto.
Qed.

Lemma emit_only_adds n σ :
  handlers (toolkit σ) `prefix_of` handlers (toolkit (emit n σ).2) ∧
  event_mask (toolkit σ) ⊆ event_mask (toolkit (emit n σ).2) ∧
  _instances (emit n σ).2 = _instances σ ∧
  length (heap (emit n σ).2) = length (heap σ) ∧
  ∀ self hp, heap σ !! self = Some hp →
    ∃ hp', heap (emit n σ).2 !! self = Some hp' ∧
           _window hp' = _window hp ∧
           _handlers_per_notebook hp' = _handlers_per_notebook hp.
Proof.
  unfold emit. cbn [snd].
  generalize (connected (toolkit σ) (emitter n) (signal_of n)).
  intros cbs. revert σ. induction cbs as [|cb cbs IH]; intros σ; cbn [foldl].
  { by eauto 10. }
  destruct (invoke_only_adds cb n σ) as (Hp & Hm & Hi & Hl & Hh).
  destruct (IH (invoke cb n σ).2) as (Hp' & Hm' & Hi' & Hl' & Hh').
  split; [by etrans|]. split; [by etrans|]. split; [congruence|].
  split; [congruence|]. intros self hp Hs.
  destruct (Hh self hp Hs) as (hp1 & Hs1 & Hw1 & Hn1).
  destruct (Hh' self hp1 Hs1) as (hp2 & Hs2 & Hw2 & Hn2).
  exists hp2. split; [done|]. split; congruence.
Qed.

(** X3.  Delivering a notification never disconnects a handler and never
    takes an event mask back: the handler table only grows at its end and the
    event masks only grow.  It does not change which windows the plugin
    tracks, creates no helper, and leaves the window and the notebook table
    of every helper as they are. *)
Theorem notifications_only_add n σ :
  handlers (toolkit σ) `prefix_of` handlers (toolkit (emit n σ).2) ∧
  event_mask (toolkit σ) ⊆ event_mask (toolkit (emit n σ).2) ∧
  _instances (emit n σ).2 = _instances σ ∧
  length (heap (emit n σ).2) = length (heap σ) ∧
  ∀ self hp, heap σ !! self = Some hp →
    ∃ hp', heap (emit n σ).2 !! self = Some hp' ∧
           _window hp' = _window hp ∧
           _handlers_per_notebook hp' = _handlers_per_notebook hp.
Proof. apply emit_only_adds. Qed.

Lemma emit_page_added_Raise notebook child page_num e σ :
  _get_focusables child = Raise e →
  emit (PageAdded notebook child page_num) σ = (Ok tt, σ).
Proof.
  intros E. unfold emit. f_equal.
  generalize (connected (toolkit σ) (emitter (PageAdded notebook child page_num))
                (signal_of (PageAdded notebook child page_num))).
  intros cbs. induction cbs as [|cb cbs IH]; cbn [foldl]; [done|].
  destruct (invoke_cases cb (PageAdded notebook child page_num) σ)
    as [->|[(? & ? & ? & ? & ? & s & _ & [= <- <- <-] & _ & E' & _)|
            (? & ? & ? & ? & _ & [=] & _)]]; [done|congruence].
Qed.

(** X4.  A page whose walk raises is ignored: when [_get_focusables] fails on
    the added page, delivering 'page-added' changes nothing at all, for any
    number of connected helpers. *)
Theorem page_added_unwalkable_changes_nothing notebook child page_num e σ :
  _get_focusables child = Raise e →
  emit (PageAdded notebook child page_num) σ = (Ok tt, σ).
Proof. apply emit_page_added_Raise. Qed.

Lemma page_added_unwalkable_changes_nothing_witness :
  emit (PageAdded notebook2 (Widget 4 false None None) 1)
       (exec 0 [Activate] editor1) =
  (Ok tt, exec 0 [Activate] editor1).
Proof.
  apply (page_added_unwalkable_changes_nothing notebook2
           (Widget 4 false None None) 1 AttributeError).
  reflexivity.
Defined.

Lemma call_keeps_focus_log {A} self (m : M frame A) σ :
  (∀ hp g, focus_log (m (hp, g)).2.2 = focus_log g) →
  focus_log (toolkit (call self m σ).2) = focus_log (toolkit σ).
Proof.
  intros Hm. unfold call. destruct (heap σ !! self) as [hp|]; [|done].
  specialize (Hm hp (toolkit σ)).
  by destruct (m (hp, toolkit σ)) as [r [hp' g']].
Qed.

Lemma activate_keeps_focus_log self hp g :
  focus_log (activate self (hp, g)).2.2 = focus_log g.
Proof.
  rewrite activate_eq. destruct (union_results _ _ _) as [s|e]; [|done].
  unfold notebooks_connected. by rewrite _connect_focusables_eq.
Qed.

Lemma deactivate_keeps_focus_log self hp g :
  focus_log (deactivate self (hp, g)).2.2 = focus_log g.
Proof. by rewrite deactivate_eq. Qed.

(** X5.  The focus is grabbed on pointer-enter and at no other time:
    [activate], [deactivate], the delivery of 'page-added', and the two
    methods of the plugin leave the record of [grab_focus] calls as it is. *)
Theorem focus_grabbed_only_on_enter σ :
  (∀ self a, (∀ widget event, a ≠ Notify (EnterNotify widget event)) →
     focus_log (toolkit (run self a σ).2) = focus_log (toolkit σ)) ∧
  (∀ window,
     focus_log (toolkit (PointerFocusPlugin.activate window σ).2) =
     focus_log (toolkit σ)) ∧
  (∀ window,
     focus_log (toolkit (PointerFocusPlugin.deactivate window σ).2) =
     focus_log (toolkit σ)).
Proof.
  split; [|split].
  - intros self [| |[notebook child page_num|widget event]] Ha; cbn [run].
    + apply call_keeps_focus_log, activate_keeps_focus_log.
    + apply call_keeps_focus_log, deactivate_keeps_focus_log.
    + unfold emit. cbn [snd].
      generalize (connected (toolkit σ) (emitter (PageAdded notebook child page_num))
                    (signal_of (PageAdded notebook child page_num))).
      intros cbs. revert σ. induction cbs as [|cb cbs IH]; intros σ; cbn [foldl];
        [done|].
      rewrite IH.
      destruct (invoke_cases cb (PageAdded notebook child page_num) σ)
        as [->|[(? & ? & ? & ? & ? & s & _ & _ & _ & _ & ->)|
                (? & ? & ? & ? & _ & [=] & _)]]; done.
    + by destruct (Ha widget event).
  - intros window.
    unfold PointerFocusPlugin.activate, PointerFocusPlugin.setitem_new_helper,
      PointerFocusPlugin.getitem, mbind, M_bind, modify.
    cbn. rewrite lookup_insert_eq.
    by rewrite call_keeps_focus_log by apply activate_keeps_focus_log.
  - intros window.
    unfold PointerFocusPlugin.deactivate, PointerFocusPlugin.pop,
      PointerFocusPlugin.getitem, mbind, M_bind, modify, mret, M_ret.
    destruct (_instances σ !! wid_of window) as [self|] eqn:E; [|done].
    pose proof (call_keeps_focus_log self (deactivate self) σ
                  (deactivate_keeps_focus_log self)) as Hc.
    destruct (call self (deactivate self) σ) as [[[]|e] σ1]; [|done].
    cbn in Hc. by destruct (_instances σ1 !! wid_of window).
Qed.

Lemma focus_grabbed_only_on_enter_witness :
  let σ := exec 0 [Activate] editor1 in
  (∀ self a, (∀ widget event, a ≠ Notify (EnterNotify widget event)) →
     focus_log (toolkit (run self a σ).2) = focus_log (toolkit σ)) ∧
  (∀ window,
     focus_log (toolkit (PointerFocusPlugin.activate window σ).2) =
     focus_log (toolkit σ)) ∧
  (∀ window,
     focus_log (toolkit (PointerFocusPlugin.deactivate window σ).2) =
     focus_log (toolkit σ)).
Proof. intros σ. apply (focus_grabbed_only_on_enter σ). Defined.

Lemma without_spares w0 h0 hs h c :
  hs !! h = Some (Some c) → (conn_widget c, h) ≠ (w0, h0) →
  without w0 h0 hs !! h = Some (Some c).
Proof.
  intros Hh Hne. unfold without.
  destruct (hs !! h0) as [[c0|]|] eqn:E0; [|done..].
  case_decide as Hw; [|done].
  destruct (decide (h = h0)) as [->|?]; [|by rewrite list_lookup_insert_ne].
  rewrite Hh in E0. injection E0 as ->. by destruct Hne; f_equal.
Qed.

Lemma without_all_spares d hs h c :
  hs !! h = Some (Some c) → (conn_widget c, h) ∉ d →
  without_all d hs !! h = Some (Some c).
Proof.
  unfold without_all. revert hs. induction d as [|[w0 h0] d IH]; intros hs Hh Hd;
    cbn [foldl]; [done|].
  apply not_elem_of_cons in Hd as [Hne Hd]. apply IH; [|done].
  by apply without_spares.
Qed.

(** X6.  [deactivate] disconnects the recorded handles and nothing else: a
    connected handler whose id is not recorded for its widget in either
    table of the helper stays connected.  The event masks that
    [_connect_focusables] added are not taken back, and the other helpers
    and the plugin's table are untouched. *)
Theorem deactivate_spares_unrecorded σ self hp :
  heap σ !! self = Some hp →
  (∀ h c, handlers (toolkit σ) !! h = Some (Some c) →
     _handlers_per_notebook hp !! conn_widget c ≠ Some h →
     _handlers_per_focusable hp !! conn_widget c ≠ Some h →
     handlers (toolkit (run self Deactivate σ).2) !! h = Some (Some c)) ∧
  event_mask (toolkit (run self Deactivate σ).2) = event_mask (toolkit σ) ∧
  (∀ other, other ≠ self →
     heap (run self Deactivate σ).2 !! other = heap σ !! other) ∧
  _instances (run self Deactivate σ).2 = _instances σ.
Proof.
  intros Hs. cbn [run]. erewrite call_eq; [|done|apply deactivate_eq]. cbn.
  split; [|split; [done|split; [|done]]].
  - intros h c Hh Hn Hf. apply without_all_spares.
    + apply without_all_spares; [done|]. by intros ?%elem_of_map_to_list.
    + by intros ?%elem_of_map_to_list.
  - intros other Hne. by rewrite list_lookup_insert_ne.
Qed.

Lemma deactivate_spares_unrecorded_witness :
  let σ := exec 0 page_put_back editor1 in
  let hp := Helper window1 {[2%positive := 0]} {[3%positive := 2]} in
  (∀ h c, handlers (toolkit σ) !! h = Some (Some c) →
     _handlers_per_notebook hp !! conn_widget c ≠ Some h →
     _handlers_per_focusable hp !! conn_widget c ≠ Some h →
     handlers (toolkit (run 0 Deactivate σ).2) !! h = Some (Some c)) ∧
  event_mask (toolkit (run 0 Deactivate σ).2) = event_mask (toolkit σ) ∧
  (∀ other, other ≠ 0 →
     heap (run 0 Deactivate σ).2 !! other = heap σ !! other) ∧
  _instances (run 0 Deactivate σ).2 = _instances σ.
Proof.
  intros σ hp. apply (deactivate_spares_unrecorded σ 0 hp). reflexivity.
Defined.

(** ** The plugin: activation and deactivation of a window *)

Lemma plugin_deactivate_run window σ self hp :
  _instances σ !! wid_of window = Some self →
  heap σ !! self = Some hp →
  ∃ σ',
    PointerFocusPlugin.deactivate window σ = (Ok tt, σ') ∧
    _instances σ' = delete (wid_of window) (_instances σ) ∧
    (∀ other, other ≠ wid_of window → _instances σ' !! other = _instances σ !! other) ∧
    heap σ' = <[self := Helper (_window hp) ∅ ∅]> (heap σ) ∧
    toolkit σ' = toolkit (run self Deactivate σ).2.
Proof.
  intros Hi Hs.
  unfold PointerFocusPlugin.deactivate, PointerFocusPlugin.pop,
    PointerFocusPlugin.getitem, mbind, M_bind, modify, mret, M_ret.
  cbn [run]. rewrite Hi. erewrite call_eq; [|done|apply deactivate_eq].
  cbn. rewrite Hi. eexists. split; [done|]. cbn. split; [done|].
  split; [|done]. intros other Hne. by apply lookup_delete_ne.
Qed.

(** X7.  [PointerFocusPlugin.deactivate(window)] for a tracked window
    returns normally, leaves the helper of the window with two empty tables,
    and forgets this window and no other: the entries of all other windows
    stay, and so do the other helper objects. *)
Theorem plugin_deactivate_tracked window σ self hp :
  _instances σ !! wid_of window = Some self →
  heap σ !! self = Some hp →
  ∃ σ',
    PointerFocusPlugin.deactivate window σ = (Ok tt, σ') ∧
    _instances σ' = delete (wid_of window) (_instances σ) ∧
    (∀ other, other ≠ wid_of window → _instances σ' !! other = _instances σ !! other) ∧
    heap σ' = <[self := Helper (_window hp) ∅ ∅]> (heap σ) ∧
    toolkit σ' = toolkit (run self Deactivate σ).2.
Proof. apply plugin_deactivate_run. Qed.

Lemma plugin_deactivate_tracked_witness :
  let σ := (PointerFocusPlugin.activate window1 world0).2 in
  ∃ σ',
    PointerFocusPlugin.deactivate window1 σ = (Ok tt, σ') ∧
    _instances σ' = delete (wid_of window1) (_instances σ) ∧
    (∀ other, other ≠ wid_of window1 → _instances σ' !! other = _instances σ !! other) ∧
    heap σ' = <[0 := Helper window1 ∅ ∅]> (heap σ) ∧
    toolkit σ' = toolkit (run 0 Deactivate σ).2.
Proof.
  intros σ.
  apply (plugin_deactivate_tracked window1 σ 0
           (Helper window1 {[2%positive := 0]} {[3%positive := 1]}));
    reflexivity.
Defined.

Lemma plugin_activate_eq window σ :
  PointerFocusPlugin.activate window σ =
  run (length (heap σ)) Activate (helper_created σ window).
Proof.
  unfold PointerFocusPlugin.activate, PointerFocusPlugin.setitem_new_helper,
    PointerFocusPlugin.getitem, mbind, M_bind, modify, helper_created.
  cbn. by rewrite lookup_insert_eq.
Qed.

Lemma helper_created_lookup σ window :
  heap (helper_created σ window) !! length (heap σ) = Some (__init__ window).
Proof. cbn. rewrite lookup_app_r by lia. by rewrite Nat.sub_diag. Qed.

Lemma record_handlers_ge next ws (d : gmap wid handler_id) w h :
  record_handlers next ws d !! w = Some h → d !! w = Some h ∨ next ≤ h.
Proof.
  revert next d. induction ws as [|w0 ws IH]; intros next d; cbn [record_handlers];
    [auto|].
  intros [Hd|Hge]%IH; [|right; lia].
  apply lookup_insert_Some in Hd as [[_ <-]|[_ Hd]]; auto.
Qed.

Lemma connections_to_owned sig cb ws :
  Forall (λ x, ∃ c, x = Some c ∧ conn_callback c = cb) (connections_to sig cb ws).
Proof.
  unfold connections_to. apply Forall_fmap, Forall_forall. intros w _. cbn. eauto.
Qed.

(** What [activate] of a helper just created adds to the editor. *)
Lemma activate_adds σ self window :
  heap σ !! self = Some (__init__ window) →
  ∃ news hp1,
    handlers (toolkit (run self Activate σ).2) = handlers (toolkit σ) ++ news ∧
    Forall (λ x, ∃ c, x = Some c ∧ owner (conn_callback c) = self) news ∧
    heap (run self Activate σ).2 = <[self := hp1]> (heap σ) ∧
    _window hp1 = window ∧
    _instances (run self Activate σ).2 = _instances σ ∧
    ∀ w h, _handlers_per_notebook hp1 !! w = Some h ∨
           _handlers_per_focusable hp1 !! w = Some h →
           length (handlers (toolkit σ)) ≤ h.
Proof.
  intros Hs. rewrite (run_activate_eq σ self _ Hs).
  destruct (union_results _ _ _) as [s|e].
  - eexists _, _. cbn. rewrite <- app_assoc, list_insert_insert_eq.
    split; [done|]. split.
    { apply Forall_app. split;
        (eapply Forall_impl; [apply connections_to_owned|]);
        intros x (c & -> & Hc); exists c; by rewrite Hc. }
    split; [done|]. split; [done|]. split; [done|]. cbn.
    intros w h [[?|?]%record_handlers_ge|[?|Hge]%record_handlers_ge];
      try done; try lia.
    rewrite length_app in Hge. lia.
  - eexists _, _. cbn. split; [done|]. split.
    { eapply Forall_impl; [apply connections_to_owned|].
      intros x (c & -> & Hc). exists c. by rewrite Hc. }
    split; [done|]. split; [done|]. split; [done|]. cbn.
    intros w h [[?|?]%record_handlers_ge|?]; done.
Qed.

Lemma connected_replicate_None hs n w sig :
  connected (Gtk (hs ++ replicate n None) ∅ []) w sig = connected (Gtk hs ∅ []) w sig.
Proof.
  unfold connected. cbn. rewrite omap_app.
  assert (∀ f : option connection → option callback,
            f None = None → omap f (replicate n None) = []) as Hn.
  { intros f Hf. induction n as [|n IH]; [done|]. cbn. by rewrite Hf. }
  rewrite Hn by done. by rewrite app_nil_r.
Qed.

Lemma connected_handlers g g' w sig :
  handlers g = handlers g' → connected g w sig = connected g' w sig.
Proof. unfold connected. by intros ->. Qed.

(** Activating a window and deactivating it again. *)
Lemma plugin_cycle window σ :
  callbacks_allocated σ →
  ∃ σ2 n,
    PointerFocusPlugin.deactivate window
      (PointerFocusPlugin.activate window σ).2 = (Ok tt, σ2) ∧
    handlers (toolkit σ2) = handlers (toolkit σ) ++ replicate n None ∧
    heap σ2 = heap σ ++ [__init__ window] ∧
    _instances σ2 = delete (wid_of window) (_instances σ).
Proof.
  intros Hwf. rewrite plugin_activate_eq.
  set (self := length (heap σ)). set (σ0 := helper_created σ window).
  pose proof (helper_created_lookup σ window) as Hs0. fold self σ0 in Hs0.
  assert (bookkept self (run self Activate σ0).2) as Hb.
  { apply (activate_bookkept σ0 self window Hs0).
    intros h c Hh Ho. specialize (Hwf h c Hh). unfold self in Ho. lia. }
  destruct (activate_adds σ0 self window Hs0)
    as (news & hp1 & Hhs & Hnews & Hheap & Hwin & Hinst & Hge).
  change (handlers (toolkit σ0)) with (handlers (toolkit σ)) in Hhs, Hge.
  set (σ1 := (run self Activate σ0).2) in *.
  assert (heap σ1 !! self = Some hp1) as Hs1.
  { rewrite Hheap. apply list_lookup_insert_eq. by eapply lookup_lt_Some. }
  assert (_instances σ1 !! wid_of window = Some self) as Hi1.
  { rewrite Hinst. cbn. apply lookup_insert_eq. }
  destruct (plugin_deactivate_run window σ1 self hp1 Hi1 Hs1)
    as (σ2 & Hd & Hinst2 & _ & Hheap2 & Htk).
  pose proof (deactivate_bookkept self σ1 Hb) as Hnone.
  exists σ2, (length news). split; [done|]. split; [|split].
  - rewrite Htk. cbn [run].
    erewrite call_eq; [|done|apply deactivate_eq]. cbn.
    set (nbs := map_to_list (_handlers_per_notebook hp1)).
    set (fs := map_to_list (_handlers_per_focusable hp1)).
    assert (handlers (toolkit (run self Deactivate σ1).2) =
            without_all fs (without_all nbs (handlers (toolkit σ1)))) as Hrun.
    { cbn [run]. by erewrite call_eq; [|done|apply deactivate_eq]. }
    rewrite Hhs. apply list_eq. intros k.
    destruct (decide (k < length (handlers (toolkit σ)))) as [Hlt|Hnlt].
    + rewrite (lookup_app_l _ (replicate _ _)) by done.
      destruct (handlers (toolkit σ) !! k) as [[c|]|] eqn:Hk.
      * apply without_all_spares; [apply without_all_spares|].
        -- by apply lookup_app_l_Some.
        -- intros Hin%elem_of_map_to_list.
           specialize (Hge _ _ (or_introl Hin)). cbn in Hge. lia.
        -- intros Hin%elem_of_map_to_list.
           specialize (Hge _ _ (or_intror Hin)). cbn in Hge. lia.
      * assert ((handlers (toolkit σ) ++ news) !! k = Some None) as Hk'
          by (by apply lookup_app_l_Some).
        destruct (without_all_lookup fs (without_all nbs (handlers (toolkit σ) ++ news)) k)
          as [Hf|Hf]; rewrite Hf; [|done].
        destruct (without_all_lookup nbs (handlers (toolkit σ) ++ news) k)
          as [Hn|Hn]; by rewrite Hn.
      * apply lookup_ge_None in Hk. lia.
    + rewrite (lookup_app_r _ (replicate _ _)) by lia.
      destruct (news !! (k - length (handlers (toolkit σ)))) as [x|] eqn:Hx.
      * rewrite lookup_replicate_2 by (by eapply lookup_lt_Some).
        rewrite Forall_forall in Hnews.
        destruct (Hnews x) as (c & -> & Ho);
          [by eapply list_elem_of_lookup_2|].
        assert ((handlers (toolkit σ) ++ news) !! k = Some (Some c)) as Hk'
          by (rewrite lookup_app_r by lia; done).
        destruct (without_all_lookup fs (without_all nbs (handlers (toolkit σ) ++ news)) k)
          as [Hf|Hf]; [|done].
        destruct (without_all_lookup nbs (handlers (toolkit σ) ++ news) k)
          as [Hn|Hn]; [|by rewrite Hf, Hn].
        exfalso. destruct c as [w sig cb].
        apply (Hnone w sig k). exists cb. split; [|done].
        rewrite Hrun, Hhs. cbn. by rewrite Hf, Hn, Hk'.
      * apply lookup_ge_None in Hx.
        assert (replicate (length news) (None : option connection)
                  !! (k - length (handlers (toolkit σ))) = None) as ->
          by (by apply lookup_replicate_None).
        apply lookup_ge_None. rewrite !without_all_length, length_app. lia.
  - rewrite Hheap2, Hheap, list_insert_insert_eq, Hwin.
    apply list_insert_id. apply Hs0.
  - rewrite Hinst2, Hinst. cbn. apply delete_insert_eq.
Qed.

Lemma callbacks_allocated_world0 : callbacks_allocated world0.
Proof. intros h c H. discriminate H. Qed.

Lemma callbacks_allocated_plugin_activate window σ :
  callbacks_allocated σ →
  callbacks_allocated (PointerFocusPlugin.activate window σ).2.
Proof.
  intros Hwf. rewrite plugin_activate_eq.
  destruct (activate_adds (helper_created σ window) (length (heap σ)) window
              (helper_created_lookup σ window))
    as (news & hp1 & Hhs & Hnews & Hheap & _).
  intros h c. rewrite Hhs, Hheap, length_insert. cbn. rewrite length_app. cbn.
  intros [Hh|[_ Hh]]%lookup_app_Some.
  - specialize (Hwf h c Hh). lia.
  - rewrite Forall_forall in Hnews.
    destruct (Hnews (Some c)) as (c' & [= <-] & ->);
      [by eapply list_elem_of_lookup_2|]. lia.
Qed.

(** X8.  Activating the plugin for a window that is not tracked and
    deactivating it again leaves no listener behind, whether or not the
    activation raised: [deactivate] returns normally, the plugin tracks the
    same windows as before, and for every widget and signal the connected
    callbacks are the ones that were connected before.  The helper object
    stays behind with empty tables. *)
Theorem plugin_activate_deactivate_round_trip window σ :
  callbacks_allocated σ →
  _instances σ !! wid_of window = None →
  ∃ σ2,
    PointerFocusPlugin.deactivate window
      (PointerFocusPlugin.activate window σ).2 = (Ok tt, σ2) ∧
    _instances σ2 = _instances σ ∧
    (∀ w sig, connected (toolkit σ2) w sig = connected (toolkit σ) w sig) ∧
    heap σ2 = heap σ ++ [__init__ window] ∧
    callbacks_allocated σ2.
Proof.
  intros Hwf Hnone.
  destruct (plugin_cycle window σ Hwf) as (σ2 & n & Hd & Hhs & Hheap & Hinst).
  exists σ2. split; [done|]. split; [|split; [|split; [done|]]].
  - rewrite Hinst. by apply delete_id.
  - intros w sig.
    rewrite (connected_handlers (toolkit σ2)
               (Gtk (handlers (toolkit σ) ++ replicate n None) ∅ [])) by done.
    rewrite connected_replicate_None. by apply connected_handlers.
  - intros h c. rewrite Hhs, Hheap, length_app.
    intros [Hh|[_ Hh]]%lookup_app_Some.
    + specialize (Hwf h c Hh). lia.
    + by apply lookup_replicate in Hh as [[=] _].
Qed.

Lemma plugin_activate_deactivate_round_trip_witness :
  ∃ σ2,
    PointerFocusPlugin.deactivate window1
      (PointerFocusPlugin.activate window1 world0).2 = (Ok tt, σ2) ∧
    _instances σ2 = _instances world0 ∧
    (∀ w sig, connected (toolkit σ2) w sig = connected (toolkit world0) w sig) ∧
    heap σ2 = heap world0 ++ [__init__ window1] ∧
    callbacks_allocated σ2.
Proof.
  apply (plugin_activate_deactivate_round_trip window1 world0).
  - apply callbacks_allocated_world0.
  - reflexivity.
Defined.

(** X9.  Activating the plugin for a window that is tracked already replaces
    the entry of the window without deactivating its helper.  The handlers of
    the old helper stay connected, also after the window is deactivated, and
    by then the plugin holds no reference to the old helper under this
    window: nothing disconnects them any more. *)
Theorem plugin_reactivation_leaks window σ old w sig h :
  callbacks_allocated σ →
  _instances σ !! wid_of window = Some old →
  subscription σ old w sig h →
  _instances (PointerFocusPlugin.activate window σ).2 !! wid_of window =
    Some (length (heap σ)) ∧
  old ≠ length (heap σ) ∧
  subscription (PointerFocusPlugin.activate window σ).2 old w sig h ∧
  ∃ σ2,
    PointerFocusPlugin.deactivate window
      (PointerFocusPlugin.activate window σ).2 = (Ok tt, σ2) ∧
    subscription σ2 old w sig h ∧
    _instances σ2 !! wid_of window = None.
Proof.
  intros Hwf Hold (cb & Hh & Hown).
  destruct (plugin_cycle window σ Hwf) as (σ2 & n & Hd & Hhs & Hheap & Hinst).
  destruct (activate_adds (helper_created σ window) (length (heap σ)) window
              (helper_created_lookup σ window))
    as (news & hp1 & Hhs1 & _ & _ & _ & Hinst1 & _).
  rewrite plugin_activate_eq in *.
  split; [|split; [|split]].
  - rewrite Hinst1. cbn. apply lookup_insert_eq.
  - specialize (Hwf h _ Hh). cbn in Hwf. lia.
  - exists cb. split; [|done]. rewrite Hhs1. by apply lookup_app_l_Some.
  - exists σ2. split; [done|]. split.
    + exists cb. split; [|done]. rewrite Hhs. by apply lookup_app_l_Some.
    + rewrite Hinst. apply lookup_delete_eq.
Qed.

Lemma plugin_reactivation_leaks_witness :
  let σ := (PointerFocusPlugin.activate window1 world0).2 in
  _instances (PointerFocusPlugin.activate window1 σ).2 !! wid_of window1 =
    Some (length (heap σ)) ∧
  0 ≠ length (heap σ) ∧
  subscription (PointerFocusPlugin.activate window1 σ).2 0 3 enter_notify_event 1 ∧
  ∃ σ2,
    PointerFocusPlugin.deactivate window1
      (PointerFocusPlugin.activate window1 σ).2 = (Ok tt, σ2) ∧
    subscription σ2 0 3 enter_notify_event 1 ∧
    _instances σ2 !! wid_of window1 = None.
Proof.
  intros σ.
  apply (plugin_reactivation_leaks window1 σ 0 3%positive enter_notify_event 1).
  - apply callbacks_allocated_plugin_activate, callbacks_allocated_world0.
  - reflexivity.
  - eexists. split; reflexivity.
Defined.

(** ** Pages added to a notebook found at activation *)

Lemma activate_connects_notebook σ self hp i notebook :
  heap σ !! self = Some hp →
  _get_notebooks (_window hp) !! i = Some notebook →
  (∃ h, handlers (toolkit (run self Activate σ).2) !! h =
          Some (Some (Connection i page_added (bound_on_page_added self)))) ∧
  is_Some (heap (run self Activate σ).2 !! self).
Proof.
  intros Hs Hi.
  assert (self < length (heap σ)) as Hlt by (by eapply lookup_lt_Some).
  destruct (notebooks_connected_world_subscribed σ self hp i notebook Hs Hi)
    as (h & _ & Hconn).
  rewrite (run_activate_eq σ self _ Hs).
  destruct (union_results _ _ _) as [s|e]; cbn [snd].
  - split.
    + exists h. cbn. by apply lookup_app_l_Some.
    + cbn. apply lookup_lt_is_Some. by rewrite !length_insert.
  - split; [by exists h|].
    cbn. apply lookup_lt_is_Some. by rewrite length_insert.
Qed.

Lemma notifications_keep_connections self ns σ h c :
  handlers (toolkit σ) !! h = Some (Some c) →
  is_Some (heap σ !! self) →
  handlers (toolkit (exec self (Notify <$> ns) σ)) !! h = Some (Some c) ∧
  is_Some (heap (exec self (Notify <$> ns) σ) !! self).
Proof.
  unfold exec. revert σ. induction ns as [|n ns IH]; intros σ Hh Hs; [done|].
  cbn [fmap list_fmap foldl run].
  destruct (emit_only_adds n σ) as (Hp & _ & _ & _ & Hheap).
  apply IH.
  - by eapply prefix_lookup_Some.
  - destruct Hs as [hp Hs]. destruct (Hheap self hp Hs) as (hp' & ? & _). eauto.
Qed.

(** X10.  A helper is created for a window and activated; afterwards any
    notifications are delivered.  When then a page is added to a notebook
    that the walk at activation found, every focusable widget of the page is
    connected and recorded, provided the widgets of the page answer
    [get_property('can_focus')].  This holds also when [activate] itself
    raised, because the notebooks are connected before the focusable widgets
    are collected. *)
Theorem pages_of_found_notebooks_are_scanned σ self window ns notebook child page_num :
  heap σ !! self = Some (__init__ window) →
  is_Some (_get_notebooks window !! wid_of notebook) →
  (∀ v, in_subtree v child → is_Some (can_focus v)) →
  let σ' := exec self (Activate :: (Notify <$> ns)) σ in
  ∃ σ'' hp',
    emit (PageAdded notebook child page_num) σ' = (Ok tt, σ'') ∧
    heap σ'' !! self = Some hp' ∧
    ∀ v, in_subtree v child → can_focus v = Some true →
      ∃ h, _handlers_per_focusable hp' !! wid_of v = Some h ∧
           handlers (toolkit σ'') !! h =
             Some (Some (Connection (wid_of v) enter_notify_event
                                    (bound_on_enter_notify_event self))) ∧
           wid_of v ∈ event_mask (toolkit σ'').
Proof.
  intros Hs [nb Hnb] Hall σ'.
  apply _get_focusables_Ok_iff in Hall as [s E].
  destruct (activate_connects_notebook σ self (__init__ window)
              (wid_of notebook) nb Hs Hnb) as [[h Hh] Hs1].
  destruct (notifications_keep_connections self ns _ h _ Hh Hs1) as [Hh' Hs'].
  change (exec self (Notify <$> ns) (run self Activate σ).2) with σ' in Hh', Hs'.
  destruct (page_added_callbacks_subscribe self notebook child page_num s
              (connected (toolkit σ') (wid_of notebook) page_added) σ' E)
    as (hp' & Hhp' & Hsub).
  { right. split; [|done]. apply connected_elem. eauto. }
  eexists _, hp'. split; [reflexivity|]. split; [done|].
  intros v Hv Hcf. apply Hsub, keys_elem. by eapply _get_focusables_complete.
Qed.

Lemma pages_of_found_notebooks_are_scanned_witness :
  let σ' := exec 0 (Activate :: (Notify <$> [EnterNotify page3 (0, 0)%Z])) editor_bare in
  ∃ σ'' hp',
    emit (PageAdded notebook_with_bare_page page5 2) σ' = (Ok tt, σ'') ∧
    heap σ'' !! 0 = Some hp' ∧
    ∀ v, in_subtree v page5 → can_focus v = Some true →
      ∃ h, _handlers_per_focusable hp' !! wid_of v = Some h ∧
           handlers (toolkit σ'') !! h =
             Some (Some (Connection (wid_of v) enter_notify_event
                                    (bound_on_enter_notify_event 0))) ∧
           wid_of v ∈ event_mask (toolkit σ'').
Proof.
  apply (pages_of_found_notebooks_are_scanned editor_bare 0 window_bare
           [EnterNotify page3 (0, 0)%Z] notebook_with_bare_page page5 2).
  - reflexivity.
  - eexists. reflexivity.
  - apply _get_focusables_Ok_iff. eexists. reflexivity.
Defined.

(** ** Bookkeeping while no widget is announced twice *)

Lemma omap_at_most_once {A} (F : A → option callback) (l : list A) cb :
  (∀ i j x y, l !! i = Some x → l !! j = Some y →
              F x = Some cb → F y = Some cb → i = j) →
  at_most_once cb (omap F l).
Proof.
  induction l as [|x l IH]; intros Hinj; [done|]. cbn.
  assert (at_most_once cb (omap F l)) as Hl.
  { apply IH. intros i j x' y' Hi Hj Hx Hy.
    by injection (Hinj (S i) (S j) x' y' Hi Hj Hx Hy). }
  destruct (F x) as [y|] eqn:Hx; [|done]. cbn. case_decide as Hy; [|done].
  subst y. intros (x' & [j Hj]%list_elem_of_lookup & Hx')%list_elem_of_omap.
  discriminate (Hinj 0 (S j) x x' eq_refl Hj Hx Hx').
Qed.

(** With the books in order, the helper's [_on_page_added] is connected at
    most once to a notebook. *)
Lemma bookkept_connected_once self σ w :
  bookkept self σ →
  at_most_once (bound_on_page_added self) (connected (toolkit σ) w page_added).
Proof.
  intros (hp & Hs & Hall). unfold connected. apply omap_at_most_once.
  assert (∀ i x, handlers (toolkit σ) !! i = Some x →
            (c ← x; if decide (conn_widget c = w ∧ conn_signal c = page_added)
                    then Some (conn_callback c) else None)
            = Some (bound_on_page_added self) →
            _handlers_per_notebook hp !! w = Some i) as Hrec.
  { intros i [c|] Hi Hx; [|done]. cbn in Hx. case_decide as Hd; [|done].
    destruct Hd as [<- Hsig]. injection Hx as Hcb.
    destruct (Hall i c Hi) as [[_ R]|[E _]]; [by rewrite Hcb|done|].
    rewrite E in Hsig. done. }
  intros i j x y Hi Hj Hx Hy.
  pose proof (Hrec i x Hi Hx). pose proof (Hrec j y Hj Hy). congruence.
Qed.

(** A callback other than the helper's [_on_page_added], run on
    'page-added'. *)
Lemma foreign_page_added_callback self cb notebook child page_num σ :
  cb ≠ bound_on_page_added self → bookkept self σ →
  bookkept self (invoke cb (PageAdded notebook child page_num) σ).2 ∧
  heap (invoke cb (PageAdded notebook child page_num) σ).2 !! self = heap σ !! self.
Proof.
  intros Hcb Hb. destruct (decide (owner cb = self)) as [Hown|Hown].
  - destruct cb as [self'|self']; cbn in Hown; subst self'; [done|]. by cbn.
  - split; [by apply other_callback_bookkept|].
    by apply invoke_of_other.
Qed.

Lemma foreign_page_added_callbacks self notebook child page_num cbs σ :
  bound_on_page_added self ∉ cbs → bookkept self σ →
  bookkept self
    (foldl (λ σ cb, (invoke cb (PageAdded notebook child page_num) σ).2) σ cbs).
Proof.
  revert σ. induction cbs as [|cb cbs IH]; intros σ Hnotin Hb; [done|].
  apply not_elem_of_cons in Hnotin as [Hne Hnotin]. cbn [foldl].
  apply IH; [done|]. by apply foreign_page_added_callback.
Qed.

Lemma new_page_callbacks_bookkept self notebook child page_num s cbs σ hp :
  _get_focusables child = Ok s →
  bookkept self σ → heap σ !! self = Some hp →
  (∀ w, w ∈ dom s → _handlers_per_focusable hp !! w = None) →
  at_most_once (bound_on_page_added self) cbs →
  bookkept self
    (foldl (λ σ cb, (invoke cb (PageAdded notebook child page_num) σ).2) σ cbs).
Proof.
  intros E. revert σ. induction cbs as [|cb cbs IH]; intros σ Hb Hs Hnew Honce;
    [done|].
  cbn [foldl]. cbn in Honce. case_decide as Hcb.
  - subst cb. apply foreign_page_added_callbacks; [done|].
    by apply (new_page_callback_bookkept self σ hp notebook child page_num s).
  - destruct (foreign_page_added_callback self cb notebook child page_num σ)
      as [Hb1 Hs1]; [done..|].
    apply IH; [done| |done..]. by rewrite Hs1.
Qed.

(** A notification that announces nothing known keeps the books in order. *)
Lemma emit_bookkept self n σ :
  bookkept self σ → announces_new self n σ → bookkept self (emit n σ).2.
Proof.
  intros Hb Hnew. destruct n as [notebook child page_num|widget event].
  - destruct (_get_focusables child) as [s|e] eqn:E.
    + pose proof Hb as (hp & Hs & _). unfold emit. cbn [snd emitter signal_of].
      apply (new_page_callbacks_bookkept self notebook child page_num s _ σ hp);
        [done..| |by apply bookkept_connected_once].
      intros w Hw. by apply (Hnew hp s w).
    + by rewrite (emit_page_added_Raise notebook child page_num e).
  - unfold emit. cbn [snd].
    generalize (connected (toolkit σ) (emitter (EnterNotify widget event))
                  (signal_of (EnterNotify widget event))).
    intros cbs. clear Hnew. revert σ Hb.
    induction cbs as [|cb cbs IH]; intros σ Hb; cbn [foldl]; [done|].
    apply IH.
    destruct (invoke_cases cb (EnterNotify widget event) σ)
      as [->|[(? & ? & ? & ? & ? & ? & _ & [=] & _)|
              (? & ? & ? & ? & _ & _ & _ & ->)]]; [done|].
    destruct Hb as (hp & Hs & Hall). by exists hp.
Qed.

Lemma notifications_bookkept self ns σ :
  bookkept self σ → announce_new self ns σ →
  bookkept self (exec self (Notify <$> ns) σ).
Proof.
  unfold exec. revert σ. induction ns as [|n ns IH]; intros σ Hb Hnew; [done|].
  destruct Hnew as [Hn Hns]. cbn [fmap list_fmap foldl run].
  apply IH; [by apply emit_bookkept|done].
Qed.

(** X11.  A helper is created for a window and activated, and notifications
    are delivered none of which announces a focusable widget that is in the
    helper's table already.  Then the bookkeeping is sound: the helper holds
    at most one subscription per widget and signal, every subscription it
    holds is recorded in its tables, and after [deactivate] it holds no
    subscription at all. *)
Theorem bookkeeping_without_repeats σ self window ns :
  heap σ !! self = Some (__init__ window) →
  (∀ h c, handlers (toolkit σ) !! h = Some (Some c) →
          owner (conn_callback c) ≠ self) →
  announce_new self ns (run self Activate σ).2 →
  let σ' := exec self (Activate :: (Notify <$> ns)) σ in
  at_most_one_subscription σ' self ∧
  subscriptions_recorded σ' self ∧
  no_subscription (run self Deactivate σ').2 self.
Proof.
  intros Hs Hfresh Hnew σ'.
  assert (bookkept self σ') as Hb.
  { apply (notifications_bookkept self ns); [|done].
    by apply (activate_bookkept σ self window). }
  split; [by apply bookkept_at_most_one|].
  split; [by apply bookkept_recorded|by apply deactivate_bookkept].
Qed.

Lemma bookkeeping_without_repeats_witness :
  let σ' := exec 0 (Activate :: (Notify <$> [PageAdded notebook2 page5 1;
                                              EnterNotify page3 (0, 0)%Z])) editor1 in
  at_most_one_subscription σ' 0 ∧
  subscriptions_recorded σ' 0 ∧
  no_subscription (run 0 Deactivate σ').2 0.
Proof.
  apply (bookkeeping_without_repeats editor1 0 window1
           [PageAdded notebook2 page5 1; EnterNotify page3 (0, 0)%Z]).
  - reflexivity.
  - intros h c H. discriminate H.
  - split; [|done]. intros hp s w Hs E Hw.
    assert (_get_focusables page5 =
            Ok {[6%positive := Widget 6 false (Some true) None]}) as E'
      by reflexivity.
    rewrite E' in E. injection E as <-.
    rewrite dom_singleton_L in Hw. apply elem_of_singleton in Hw as ->.
    vm_compute in Hs. injection Hs as <-. reflexivity.
Defined.

(** ** The walks over graphs of objects *)

Lemma union_calls_None f cs acc c :
  c ∈ cs → f c = None → Graph.union_calls f cs acc = None.
Proof.
  intros Hin Hc. revert acc. induction cs as [|c0 cs IH]; intros acc;
    [by apply elem_of_nil in Hin|].
  cbn [Graph.union_calls]. apply elem_of_cons in Hin as [<-|Hin].
  - by rewrite Hc.
  - destruct (f c0); [by apply IH|done].
Qed.

Lemma union_result_calls_no_set f cs acc c :
  c ∈ cs → (∀ s, f c ≠ Some (Ok s)) →
  ∀ s, Graph.union_result_calls f cs acc ≠ Some (Ok s).
Proof.
  intros Hin Hc. revert acc. induction cs as [|c0 cs IH]; intros acc s;
    [by apply elem_of_nil in Hin|].
  cbn [Graph.union_result_calls]. apply elem_of_cons in Hin as [<-|Hin].
  - destruct (f c) as [[t|e]|] eqn:E; [by destruct (Hc t)|done..].
  - destruct (f c0) as [[t|e]|]; [by apply IH|done..].
Qed.

(** X12.  The walks have no guard against cycles.  On a set of objects each
    of which has a child in the set (they lie on a cycle, or lead into one),
    [_get_notebooks] does not return whatever the bound on the depth of the
    recursion, and [_get_focusables] never returns a set: it exhausts the
    bound or raises. *)
Theorem walks_do_not_return_on_cycles objects (C : wid → Prop) :
  (∀ p, C p → ∃ cs c, Graph.node_children (objects p) = Some cs ∧ c ∈ cs ∧ C c) →
  ∀ fuel p, C p →
    Graph._get_notebooks objects fuel p = None ∧
    ∀ s, Graph._get_focusables objects fuel p ≠ Some (Ok s).
Proof.
  intros Hcyc fuel. induction fuel as [|fuel IH]; intros p Hp; [done|].
  destruct (Hcyc p Hp) as (cs & c & Hcs & Hin & Hc).
  destruct (IH c Hc) as [IHn IHf].
  cbn [Graph._get_notebooks Graph._get_focusables]. rewrite Hcs. split.
  - by eapply union_calls_None.
  - destruct (Graph.node_can_focus (objects p)) as [b|]; [|done].
    by eapply union_result_calls_no_set.
Qed.

Lemma walks_do_not_return_on_cycles_witness :
  Graph._get_notebooks knot 5 1%positive = None ∧
  ∀ s, Graph._get_focusables knot 5 1%positive ≠ Some (Ok s).
Proof.
  apply (walks_do_not_return_on_cycles knot (λ _, True)); [|done].
  intros p _. exists [p], p. split; [reflexivity|]. split; [|done].
  apply elem_of_cons. by left.
Defined.

(** X13.  On a finite acyclic graph of objects the walks over the graph and
    the structural walks agree: with a bound above the depth of the widget,
    the objects below it unfold to a tree, and the walks over the graph
    return the identities of the widgets that the walks over that tree
    return, and raise where they raise. *)
Theorem walks_agree_on_acyclic_graphs objects (depth : wid → nat) :
  (∀ p cs c, Graph.node_children (objects p) = Some cs → c ∈ cs →
             depth c < depth p) →
  ∀ widget fuel, depth widget < fuel →
    ∃ t, Graph.unfold objects fuel widget = Some t ∧
         wid_of t = widget ∧
         Graph._get_notebooks objects fuel widget = Some (dom (_get_notebooks t)) ∧
         Graph._get_focusables objects fuel widget = Some (dom_of (_get_focusables t)).
Proof.
  intros Hbelow widget fuel Hd.
  destruct (unfold_within_depth objects depth Hbelow fuel widget Hd) as [t Ht].
  exists t. split; [done|]. split.
  - destruct fuel as [|fuel]; [done|]. revert Ht. cbn [Graph.unfold].
    destruct (Graph.node_children (objects widget)) as [cs|]; cbn.
    + destruct (mapM _ cs); cbn; [|done]. by intros [= <-].
    + by intros [= <-].
  - by apply graph_walks_agree.
Qed.

Lemma walks_agree_on_acyclic_graphs_witness :
  ∃ t, Graph.unfold objects1 3 1%positive = Some t ∧
       wid_of t = 1%positive ∧
       Graph._get_notebooks objects1 3 1%positive = Some (dom (_get_notebooks t)) ∧
       Graph._get_focusables objects1 3 1%positive = Some (dom_of (_get_focusables t)).
Proof.
  apply (walks_agree_on_acyclic_graphs objects1 depth1 objects1_children_below
           1%positive 3).
  vm_compute. lia.
Defined.
